(** * The document-indexing pipeline of modal-ml-sandbox

    A shallow embedding of the indexing code:

    - [agents/index_pipeline/pipeline.py]       (module [IndexPipeline])
    - [agents/index_pipeline/embed_worker.py]   (module [EmbedWorker])
    - [agents/index_pipeline/config.py]         (module [Config])
    - [agents/rag_agent/indexer_workers.py]     (module [IndexerWorkers])
    - [agents/slackbot/services/index_client.py] (module [IndexClient])

    Python lists are lists, dicts are [gmap]s, integers are [nat] or [Z],
    exceptions are a result type, and the Modal volume is an explicit state
    that every phase receives and returns. What the code calls without
    defining it (the readers, the splitters, the embedding providers) is the
    class [Capabilities]. The properties of the planner, the scanner, the
    workers and Finalize follow the definitions. *)

From Stdlib Require Import ZArith Ascii String List Lia.
From stdpp Require Import base tactics option numbers list strings gmap pretty sorting.

Local Open Scope string_scope.
Local Open Scope list_scope.
Local Open Scope nat_scope.

(** ** Python primitives *)

Module Py.

Inductive exn :=
| ZeroDivisionError
| ValueError
| KeyError
| BadZipFile
| FileNotFoundError
| ExternalError (what : string).

(** The outcome of a call: a value, or a raised exception. *)
Inductive res (A : Type) :=
| Ok (a : A)
| Raise (e : exn).
Arguments Ok {A} a.
Arguments Raise {A} e.

Definition is_ok {A} (r : res A) : bool :=
  match r with Ok _ => true | Raise _ => false end.

Definition is_raise {A} (r : res A) : bool := negb (is_ok r).

#[global] Instance res_ret : MRet res := λ A a, Ok a.
#[global] Instance res_bind : MBind res := λ A B f r,
  match r with Ok a => f a | Raise e => Raise e end.

(** [math.ceil(a / n)] for non-negative integers: the ceiling of the
    quotient, which the float division gives exactly at the sizes of lists
    and archives. A zero divisor raises. *)
Definition ceil_div (a n : nat) : res nat :=
  if n =? 0 then Raise ZeroDivisionError else Ok ((a + n - 1) / n).

(** [range(0, stop, step)] for a non-negative step: a zero step raises. *)
Definition range (stop step : nat) : res (list nat) :=
  if step =? 0 then Raise ValueError
  else Ok (map (λ k, k * step) (seq 0 ((stop + step - 1) / step))).

(** [l[i:j]] for [0 <= i] and [0 <= j]; out-of-range bounds are clipped. *)
Definition slice {A} (l : list A) (i j : nat) : list A :=
  take (j - i) (drop i l).

(** [[l[i : i + step] for i in range(0, len(l), step)]] *)
Definition slices {A} (l : list A) (step : nat) : res (list (list A)) :=
  idx ← range (length l) step;
  Ok (map (λ i, slice l i (i + step)) idx).

(** [s.endswith(suffix)] *)
Definition endswith (s suffix : string) : bool :=
  let n := String.length s in
  let k := String.length suffix in
  (k <=? n) && String.eqb (substring (n - k) k s) suffix.

(** [s.removeprefix]-style test: the rest of [s] after [prefix]. *)
Fixpoint strip_prefix (prefix s : string) : option string :=
  match prefix, s with
  | EmptyString, _ => Some s
  | String a p, String b r => if Ascii.eqb a b then strip_prefix p r else None
  | String _ _, EmptyString => None
  end.

(** Splitting at ["/"]: the components of a path, left to right. *)
Fixpoint split_slash (cur : string) (s : string) : list string :=
  match s with
  | EmptyString => [String.rev cur]
  | String c r =>
      if Ascii.eqb c "/"%char then String.rev cur :: split_slash "" r
      else split_slash (String c cur) r
  end.

(** [Path(p).name]: the last component, empty and ["."] components
    being dropped by [pathlib] when it parses the string. *)
Definition path_name (p : string) : string :=
  let parts :=
    List.filter (λ c, negb (String.eqb c "" || String.eqb c ".")) (split_slash "" p) in
  List.last parts "".

(** [f"{n:,}"]: decimal digits in groups of three, separated by commas. *)
Fixpoint group3 (k : nat) (rev_digits : list ascii) : list ascii :=
  match rev_digits with
  | [] => []
  | d :: r =>
      match k with
      | 0 => ","%char :: d :: group3 2 r
      | S k' => d :: group3 k' r
      end
  end.

Definition fmt_comma (n : nat) : string :=
  string_of_list_ascii
    (List.rev (group3 3 (List.rev (list_ascii_of_string (pretty n))))).

(** Python's ASCII whitespace, as [str.strip()] and [str.isspace] see it. *)
Definition is_space (c : ascii) : bool :=
  let n := nat_of_ascii c in
  ((9 <=? n) && (n <=? 13)) || ((28 <=? n) && (n <=? 32)).

(** [not text.strip()] *)
Fixpoint is_blank (s : string) : bool :=
  match s with
  | EmptyString => true
  | String c r => is_space c && is_blank r
  end.

(** [s.lower()] on ASCII letters. *)
Definition lower_ascii (c : ascii) : ascii :=
  let n := nat_of_ascii c in
  if (65 <=? n) && (n <=? 90) then ascii_of_nat (n + 32) else c.

Fixpoint lower (s : string) : string :=
  match s with
  | EmptyString => EmptyString
  | String c r => String (lower_ascii c) (lower r)
  end.

End Py.
Export Py.

(** ** agents/index_pipeline/config.py *)

Module Config.
Definition N_WORKERS : nat := 8.
Definition WORKERS_PER_GPU : nat := 4.
Definition TEI_BATCH_SIZE : nat := 256.
Definition EMBED_BATCH_SIZE : nat := 1024.
Definition UPSERT_BATCH : nat := 5000.
Definition CHROMA_DIR : string := "/data/rag/chroma".
End Config.

(** ** The data on the Modal volume *)

Module Store.

(** [os.stat_result], the two fields the pipeline reads. *)
Record Stat := { st_mtime_ns : Z; st_size : Z }.

(** The content of a regular file: either opaque bytes, or a zip archive
    given by its members in archive order. A member whose data is [None]
    cannot be read ([ZipFile.read] raises on it). *)
Inductive FileData :=
| Blob (data : string)
| ZipArchive (members : list (string * option string)).

(** An entry of the documents directory. *)
Inductive DirEntry :=
| SubDir (st : Stat)
| File (st : Stat) (data : FileData).

Definition is_file (e : DirEntry) : bool :=
  match e with File _ _ => true | SubDir _ => false end.

(** The manifest: file name -> fingerprint. *)
Abbreviation Manifest := (gmap string string).

(** A chunk as stored in the vector collection or staged in a pickle. *)
Record ChunkRecord (Vec : Type) := {
  rec_id : string;
  rec_embedding : Vec;
  rec_document : string;
  rec_metadata : gmap string string;
}.
Arguments rec_id {Vec} _.
Arguments rec_embedding {Vec} _.
Arguments rec_document {Vec} _.
Arguments rec_metadata {Vec} _.

(** The volume mounted at [/data].
    - [docs]: [/data/rag/docs], [None] when the directory does not exist;
    - [manifest_json]: [/data/rag/chroma/manifest.json] as [json.loads]
      returns it, [None] when the file is missing or does not parse;
    - [worker_manifests]: [/data/rag/chroma/manifest-worker-{id}.json];
    - [collection]: the Chroma collection [rag_documents], keyed by id;
    - [pending]: [/data/rag/pending/worker-{id}.pkl], [None] when the
      directory does not exist. *)
Record Volume (Vec : Type) := {
  docs : option (gmap string DirEntry);
  manifest_json : option Manifest;
  worker_manifests : gmap nat Manifest;
  collection : gmap string (ChunkRecord Vec);
  pending : option (gmap nat (list (ChunkRecord Vec)));
}.
Arguments docs {Vec} _.
Arguments manifest_json {Vec} _.
Arguments worker_manifests {Vec} _.
Arguments collection {Vec} _.
Arguments pending {Vec} _.

Definition DOCS_DIR : string := "/data/rag/docs".

(** [str(docs_dir / name)] *)
Definition docs_path (name : string) : string := DOCS_DIR +:+ "/" +:+ name.

(** The entry a path string denotes, if any. Only the documents directory
    holds documents. *)
Definition lookup_path {Vec} (v : Volume Vec) (path : string) : option DirEntry :=
  dir ← docs v; name ← strip_prefix (DOCS_DIR +:+ "/") path; dir !! name.

(** [Path(p).stat()] *)
Definition path_stat {Vec} (v : Volume Vec) (path : string) : res Stat :=
  match lookup_path v path with
  | Some (File st _) | Some (SubDir st) => Ok st
  | None => Raise FileNotFoundError
  end.

(** [f"{stat.st_mtime_ns}:{stat.st_size}"] *)
Definition fingerprint (st : Stat) : string :=
  pretty (st_mtime_ns st) +:+ ":" +:+ pretty (st_size st).

(** [sorted(p for p in docs_dir.iterdir() if p.is_file())]: the regular
    files of the directory, by name. *)
Definition sorted_files (dir : gmap string DirEntry) : list (string * Stat) :=
  merge_sort (λ a b, String.le a.1 b.1)
    (omap (λ kv, match kv.2 with File st _ => Some (kv.1, st) | SubDir _ => None end)
          (map_to_list dir)).

(** [zipfile.ZipFile(path).namelist()] *)
Definition zip_open {Vec} (v : Volume Vec) (path : string)
  : res (list (string * option string)) :=
  match lookup_path v path with
  | Some (File _ (ZipArchive members)) => Ok members
  | Some (File _ (Blob _)) => Raise BadZipFile
  | Some (SubDir _) => Raise (ExternalError "IsADirectoryError")
  | None => Raise FileNotFoundError
  end.

(** [zf.read(name)]: the data of the last member of that name. *)
Definition zip_read (members : list (string * option string)) (name : string)
  : res string :=
  match List.find (λ m, String.eqb m.1 name) (List.rev members) with
  | Some (_, Some data) => Ok data
  | Some (_, None) => Raise (ExternalError "BadZipFile: bad member")
  | None => Raise KeyError
  end.

(** [[n for n in zf.namelist() if not n.endswith("/")]] *)
Definition file_entries (members : list (string * option string)) : list string :=
  List.filter (λ n, negb (endswith n "/")) (map fst members).

End Store.
Export Store.

(** ** Work items *)

(** The dicts the planner hands to the workers: [{"type": "files", "paths":
    [...]}] and [{"type": "zip_entries", "zip_path": ..., "entries": [...]}].
    [OtherWork] stands for a dict with another ["type"]. *)
Inductive WorkItem :=
| Files (paths : list string)
| ZipEntries (zip_path : string) (entries : list string)
| OtherWork (work_type : string).

(** ** Documents, nodes and the external capabilities *)

(** [llama_index.core.Document]: the text and the metadata dict. *)
Record Document := { doc_text : string; doc_metadata : gmap string string }.

(** A node returned by a splitter. *)
Record TextNode := {
  node_id : string;
  node_content : string;
  node_metadata : gmap string string;
}.

(** What the code calls and this repository does not define. Each call may
    raise, and may answer differently from one call to the next: it reads
    and updates a [World]. [Vec] is the embedding vector, a list of floats
    that the code only moves around. *)
Class Capabilities := {
  Vec : Type;
  World : Type;
(** [SimpleDirectoryReader(input_files=[path]).load_data()] *)
load_data : string → option DirEntry → World → res (list Document) * World;
(** [PdfReader(io.BytesIO(data))] and the joined text of its pages *)
pdf_text : string → res string;
(** [data.decode("utf-8", errors="replace")] *)
decode_utf8 : string → string;
(** [TokenTextSplitter(chunk_size=512, chunk_overlap=64).get_nodes_from_documents] *)
token_splitter : list Document → World → res (list TextNode) * World;
(** [SentenceSplitter(chunk_size=512, chunk_overlap=64).get_nodes_from_documents] *)
sentence_splitter : list Document → World → res (list TextNode) * World;
(** [POST /embed] to the TEI server, [raise_for_status()], [json()] *)
tei_embed : list string → World → res (list Vec) * World;
(** [HuggingFaceEmbedding.get_text_embedding_batch] *)
hf_embed : list string → World → res (list Vec) * World;
}.

(** ** The state of a run, and the monad of the phases *)

Module Run.
Section defs.
Context `{Capabilities}.

(** What happens during a run besides the changes of the volume, in
    order: a status callback, a work item handed to a worker, the result
    or exception the map yields for it, a call of Finalize, a call of the
    reload hook. *)
Inductive Event :=
| EvStatus (msg : string)
| EvEmbed (worker_id : nat)
| EvResult (result : res (nat * nat))
| EvFinalize (force : bool)
| EvReload.

(** [pending_buf] is [EmbedWorker._pending]. *)
Record State := {
  vol : Volume Vec;
  world : World;
  pending_buf : list (ChunkRecord Vec);
  log : list Event;
}.

Definition M (A : Type) : Type := State → res A * State.

#[global] Instance M_ret : MRet M := λ A a s, (Ok a, s).
#[global] Instance M_bind : MBind M := λ A B f m s,
  match m s with
  | (Ok a, s') => f a s'
  | (Raise e, s') => (Raise e, s')
  end.

Definition raise {A} (e : exn) : M A := λ s, (Raise e, s).
Definition lift {A} (r : res A) : M A := λ s, (r, s).

Definition get_vol : M (Volume Vec) := λ s, (Ok (vol s), s).
Definition set_vol (v : Volume Vec) : M unit := λ s,
  (Ok (), {| vol := v; world := world s; pending_buf := pending_buf s; log := log s |}).
Definition get_pending : M (list (ChunkRecord Vec)) := λ s, (Ok (pending_buf s), s).
Definition set_pending (p : list (ChunkRecord Vec)) : M unit := λ s,
  (Ok (), {| vol := vol s; world := world s; pending_buf := p; log := log s |}).

(** A call of an external capability. *)
Definition ext {A} (f : World → res A * World) : M A := λ s,
  let '(r, w) := f (world s) in
  (r, {| vol := vol s; world := w; pending_buf := pending_buf s; log := log s |}).

Definition with_log (s : State) (evs : list Event) : State :=
  {| vol := vol s; world := world s; pending_buf := pending_buf s;
     log := log s ++ evs |}.

Definition emit (e : Event) : M unit := λ s, (Ok (), with_log s [e]).

(** The status callback: observational only. *)
Definition on_status (msg : string) : M unit := emit (EvStatus msg).

(** [for x in l: acc = f(acc, x)] *)
Fixpoint foldM {A B} (f : B → A → M B) (b : B) (l : list A) : M B :=
  match l with
  | [] => mret b
  | x :: l' => b' ← f b x; foldM f b' l'
  end.

(** [Function.map(inputs, ids, return_exceptions=True)]: every input runs;
    an input that raises yields its exception in place of a result and the
    other inputs are unaffected. Inputs are taken in order here. *)
Fixpoint map_return_exceptions {I} (f : I → nat → M (nat * nat))
    (inputs : list I) (ids : list nat) : M (list (res (nat * nat))) :=
  match inputs, ids with
  | work :: inputs', wid :: ids' =>
      λ s, let '(r, s1) := (emit (EvEmbed wid);; f work wid) s in
           (emit (EvResult r);;
            rs ← map_return_exceptions f inputs' ids';
            mret (r :: rs)) s1
  | _, _ => mret []
  end.

(** [chromadb] [collection.upsert]: last write per id wins. *)
Definition upsert (recs : list (ChunkRecord Vec))
    (c : gmap string (ChunkRecord Vec)) : gmap string (ChunkRecord Vec) :=
  foldl (λ c r, <[rec_id r := r]> c) c recs.

(** [for i in range(0, len(recs), UPSERT_BATCH): collection.upsert(recs[i:i+UPSERT_BATCH])] *)
Definition upsert_batched (recs : list (ChunkRecord Vec))
    (c : gmap string (ChunkRecord Vec)) : res (gmap string (ChunkRecord Vec)) :=
  batches ← slices recs Config.UPSERT_BATCH;
  Ok (foldl (λ c b, upsert b c) c batches).

Definition with_collection (v : Volume Vec) (c : gmap string (ChunkRecord Vec)) : Volume Vec :=
  {| docs := docs v; manifest_json := manifest_json v;
     worker_manifests := worker_manifests v; collection := c; pending := pending v |}.

Definition with_worker_manifests (v : Volume Vec) (wm : gmap nat Manifest) : Volume Vec :=
  {| docs := docs v; manifest_json := manifest_json v;
     worker_manifests := wm; collection := collection v; pending := pending v |}.

Definition with_pending (v : Volume Vec)
    (p : option (gmap nat (list (ChunkRecord Vec)))) : Volume Vec :=
  {| docs := docs v; manifest_json := manifest_json v;
     worker_manifests := worker_manifests v; collection := collection v; pending := p |}.

Definition with_manifest (v : Volume Vec) (m : option Manifest) : Volume Vec :=
  {| docs := docs v; manifest_json := m;
     worker_manifests := worker_manifests v; collection := collection v;
     pending := pending v |}.

(** [zip(nodes, embeddings, texts)] turned into records. *)
Definition to_records (nodes : list TextNode) (embeddings : list Vec)
    (texts : list string) : list (ChunkRecord Vec) :=
  zip_with (λ ne text,
    {| rec_id := node_id ne.1; rec_embedding := ne.2; rec_document := text;
       rec_metadata := node_metadata ne.1 |})
    (zip nodes embeddings) texts.

End defs.
End Run.
Export Run.

(** ** agents/index_pipeline/embed_worker.py *)

Module EmbedWorker.
Section defs.
Context `{Capabilities}.

Definition _read_zip_entry (zf : list (string * option string)) (name : string)
  : option string :=
  match zip_read zf name with
  | Raise _ => None
  | Ok data =>
      if endswith (lower name) ".pdf"
      then match pdf_text data with Ok t => Some t | Raise _ => None end
      else Some (decode_utf8 data)
  end.

Definition _embed_texts (texts : list string) : M (list Vec) :=
  batches ← lift (slices texts Config.TEI_BATCH_SIZE);
  foldM (λ all_embeddings batch,
           r ← ext (tei_embed batch); mret (all_embeddings ++ r))
        [] batches.

Definition _chunk_and_embed (docs : list Document) : M nat :=
  nodes ← ext (token_splitter docs);
  match nodes with
  | [] => mret 0
  | _ =>
      let texts := map node_content nodes in
      embeddings ← _embed_texts texts;
      pending ← get_pending;
      set_pending (pending ++ to_records nodes embeddings texts);;
      mret (length nodes)
  end.

Definition _load_file (file_path source : string) : M (list Document) :=
  v ← get_vol;
  docs ← ext (load_data file_path (lookup_path v file_path));
  mret (map (λ doc, {| doc_text := doc_text doc;
                       doc_metadata := <["source" := source]> (doc_metadata doc) |})
            docs).

Definition _embed_files (file_paths : list string) (worker_id : nat) : M nat :=
  foldM (λ total file_path,
           let source := path_name file_path in
           docs ← _load_file file_path source;
           count ← _chunk_and_embed docs;
           mret (total + count))
        0 file_paths.

(** The body of the loop over the entries: the batch of documents read so
    far and the chunk total are the loop's variables. *)
Definition zip_entry_step (zf : list (string * option string)) (source : string)
    (acc : list Document * nat) (name : string) : M (list Document * nat) :=
  let '(batch, total) := acc in
  match _read_zip_entry zf name with
  | None => mret (batch, total)
  | Some text =>
      if is_blank text then mret (batch, total)
      else
        let batch' :=
          batch ++ [{| doc_text := text;
                       doc_metadata := <["filename" := name]> {["source" := source]} |}] in
        if Config.EMBED_BATCH_SIZE <=? length batch'
        then count ← _chunk_and_embed batch'; mret ([], total + count)
        else mret (batch', total)
  end.

Definition _embed_zip_entries (zip_path : string) (entries : list string)
    (worker_id : nat) : M nat :=
  let source := path_name zip_path in
  v ← get_vol;
  zf ← lift (zip_open v zip_path);
  acc ← foldM (zip_entry_step zf source) ([], 0) entries;
  match acc.1 with
  | [] => mret acc.2
  | _ => count ← _chunk_and_embed acc.1; mret (acc.2 + count)
  end.

Definition _flush_to_chroma (worker_id : nat) : M unit :=
  pending ← get_pending;
  match pending with
  | [] => mret ()
  | _ =>
      v ← get_vol;
      c ← lift (upsert_batched pending (collection v));
      set_vol (with_collection v c);;
      set_pending []
  end.

(** [work.get("paths", [work["zip_path"]] if "zip_path" in work else [])] *)
Definition manifest_paths (work : WorkItem) : list string :=
  match work with
  | Files paths => paths
  | ZipEntries zip_path _ => [zip_path]
  | OtherWork _ => []
  end.

Definition _write_manifest (worker_id : nat) (work : WorkItem) : M unit :=
  manifest ← foldM (λ (manifest : Manifest) p,
                      v ← get_vol;
                      st ← lift (path_stat v p);
                      mret (<[path_name p := fingerprint st]> manifest))
                   ∅ (manifest_paths work);
  v ← get_vol;
  set_vol (with_worker_manifests v (<[worker_id := manifest]> (worker_manifests v))).

Definition embed (work : WorkItem) (worker_id : nat) : M (nat * nat) :=
  set_pending [];;
  total ← match work with
          | Files paths => _embed_files paths worker_id
          | ZipEntries zip_path entries => _embed_zip_entries zip_path entries worker_id
          | OtherWork _ => raise ValueError
          end;
  _flush_to_chroma worker_id;;
  _write_manifest worker_id work;;
  mret (worker_id, total).

End defs.
End EmbedWorker.

(** ** agents/rag_agent/indexer_workers.py *)

Module IndexerWorkers.
Section defs.
Context `{Capabilities}.

Definition N_WORKERS : nat := 10.
Definition EMBED_BATCH_SIZE : nat := 1024.
Definition UPSERT_BATCH : nat := 5000.

(** [os.path.basename] *)
Definition basename (p : string) : string := List.last (split_slash "" p) "".

Definition _read_zip_text (zf : list (string * option string)) (name : string)
  : option string :=
  match zip_read zf name with
  | Raise _ => None
  | Ok data =>
      if endswith (lower name) ".pdf"
      then match pdf_text data with Ok t => Some t | Raise _ => None end
      else Some (decode_utf8 data)
  end.

(** [_embed_batch(docs, records)]: [records] is extended in place. *)
Definition _embed_batch (docs : list Document) (records : list (ChunkRecord Vec))
  : M (list (ChunkRecord Vec)) :=
  nodes ← ext (sentence_splitter docs);
  match nodes with
  | [] => mret records
  | _ =>
      let texts := map node_content nodes in
      embeddings ← ext (hf_embed texts);
      mret (records ++ to_records nodes embeddings texts)
  end.

Definition zip_name_step (zf : list (string * option string)) (source : string)
    (acc : list Document * list (ChunkRecord Vec)) (name : string)
  : M (list Document * list (ChunkRecord Vec)) :=
  let '(batch, all_records) := acc in
  match _read_zip_text zf name with
  | None => mret (batch, all_records)
  | Some text =>
      if is_blank text then mret (batch, all_records)
      else
        let batch' :=
          batch ++ [{| doc_text := text;
                       doc_metadata := <["filename" := name]> {["source" := source]} |}] in
        if EMBED_BATCH_SIZE <=? length batch'
        then recs ← _embed_batch batch' all_records; mret ([], recs)
        else mret (batch', all_records)
  end.

Definition embed_one_file (all_records : list (ChunkRecord Vec)) (file_path : string)
  : M (list (ChunkRecord Vec)) :=
  let source := basename file_path in
  v ← get_vol;
  if endswith file_path ".zip" then
    zf ← lift (zip_open v file_path);
    acc ← foldM (zip_name_step zf source) ([], all_records) (file_entries zf);
    match acc.1 with
    | [] => mret acc.2
    | _ => _embed_batch acc.1 acc.2
    end
  else
    docs ← ext (load_data file_path (lookup_path v file_path));
    _embed_batch
      (map (λ doc, {| doc_text := doc_text doc;
                      doc_metadata := <["source" := source]> (doc_metadata doc) |}) docs)
      all_records.

(** [setup] has made [/data/rag/pending] before the first input runs. *)
Definition embed (file_paths : list string) (worker_id : nat) : M (nat * nat) :=
  v0 ← get_vol;
  set_vol (with_pending v0 (Some (default ∅ (pending v0))));;
  all_records ← foldM embed_one_file [] file_paths;
  v ← get_vol;
  set_vol (with_pending v (Some (<[worker_id := all_records]> (default ∅ (pending v)))));;
  mret (worker_id, length all_records).

(** [sorted(PENDING_DIR.glob("*.pkl"))]: by file name. *)
Definition pkl_name (worker_id : nat) : string := "worker-" +:+ pretty worker_id +:+ ".pkl".

Definition pkl_files (v : Volume Vec) : list (string * list (ChunkRecord Vec)) :=
  match pending v with
  | None => []
  | Some dir =>
      merge_sort (λ a b, String.le a.1 b.1)
                 (map (λ kv, (pkl_name kv.1, kv.2)) (map_to_list dir))
  end.

(** The manifest Finalize writes: one entry per regular file of the
    documents directory. *)
Definition full_manifest (v : Volume Vec) : Manifest :=
  match docs v with
  | None => ∅
  | Some dir =>
      foldl (λ (manifest : Manifest) p, <[p.1 := fingerprint p.2]> manifest)
            ∅ (sorted_files dir)
  end.

Definition summary (total n_files : nat) : string :=
  "Indexed " +:+ fmt_comma total +:+ " chunks from " +:+ pretty n_files +:+ " file(s).".

Definition finalize_index (force : bool) : M string :=
  v ← get_vol;
  let c0 := if force then ∅ else collection v in
  '(c, total) ← lift (foldl (λ acc pkl,
                        '(c, total) ← acc;
                        c' ← upsert_batched pkl.2 c;
                        Ok (c', total + length pkl.2))
                     (Ok (c0, 0)) (pkl_files v));
  let manifest := full_manifest v in
  set_vol {| docs := docs v; manifest_json := Some manifest;
             worker_manifests := worker_manifests v; collection := c;
             pending := None |};;
  mret (summary total (size manifest)).

End defs.
End IndexerWorkers.

(** ** agents/index_pipeline/pipeline.py *)

Module IndexPipeline.
Section defs.
Context `{Capabilities}.

Definition _load_manifest (v : Volume Vec) : Manifest := default ∅ (manifest_json v).

Definition _fingerprint (st : Stat) : string := fingerprint st.

(** The test of the comprehension in [_scan]:
    [force or manifest.get(p.name) != self._fingerprint(p)] *)
Definition needs_index (force : bool) (manifest : Manifest) (p : string * Stat) : bool :=
  force || negb (bool_decide (manifest !! p.1 = Some (_fingerprint p.2))).

Definition _scan (force : bool) : M (list string) :=
  on_status "scanning documents...";;
  v ← get_vol;
  match docs v with
  | None => mret []
  | Some dir =>
      let manifest := _load_manifest v in
      let all_files := sorted_files dir in
      let to_index := List.filter (needs_index force manifest) all_files in
      mret (map (λ p, docs_path p.1) to_index)
  end.

Definition is_zip (f : string) : bool := endswith f ".zip".

(** The work items of the regular files. *)
Definition regular_batches (n_batches : nat) (regular : list string)
  : res (list WorkItem * nat) :=
  match regular with
  | [] => Ok ([], 0)
  | _ =>
      chunk_size ← ceil_div (length regular) n_batches;
      parts ← slices regular chunk_size;
      Ok (map Files parts, length regular)
  end.

(** The work items of one archive: the body of the loop over [zips]. *)
Definition zip_batches (n_batches : nat) (v : Volume Vec) (zip_path : string)
  : res (list WorkItem * nat) :=
  zf ← zip_open v zip_path;
  let entries := file_entries zf in
  chunk_size ← ceil_div (length entries) n_batches;
  parts ← slices entries chunk_size;
  Ok (map (ZipEntries zip_path) parts, length entries).

Definition build_batches (n_batches : nat) (v : Volume Vec) (files : list string)
  : res (list WorkItem * nat) :=
  let regular := List.filter (λ f, negb (is_zip f)) files in
  let zips := List.filter is_zip files in
  start ← regular_batches n_batches regular;
  foldl (λ acc zip_path,
           '(batches, doc_count) ← acc;
           '(items, n) ← zip_batches n_batches v zip_path;
           Ok (batches ++ items, doc_count + n))
        (Ok start) zips.

Definition _build_batches (files : list string) : M (list WorkItem * nat) :=
  v ← get_vol;
  lift (build_batches (Config.N_WORKERS * Config.WORKERS_PER_GPU) v files).

(** The loop of [_embed] over the results of the map. *)
Definition collect_results (results : list (res (nat * nat))) : M nat :=
  foldM (λ total result,
           match result with
           | Raise _ => mret total
           | Ok (wid, count) =>
               let total' := total + count in
               on_status ("worker-" +:+ pretty wid +:+ " done: " +:+ fmt_comma count
                          +:+ " chunks (total: " +:+ fmt_comma total' +:+ ")");;
               mret total'
           end)
        0 results.

Definition _embed (files : list string) : M nat :=
  '(batches, doc_count) ← _build_batches files;
  let worker_ids := seq 0 (length batches) in
  on_status ("embedding " +:+ fmt_comma doc_count +:+ " documents across "
             +:+ pretty (length batches) +:+ " GPU workers...");;
  results ← map_return_exceptions EmbedWorker.embed batches worker_ids;
  collect_results results;;
  mret doc_count.

(** Modelled from the spec: [agents.index_pipeline.finalize_index(force,
    doc_count)] is imported by [pipeline.py] and is not among the sources.
    The spec (4.4) gives its phases: on [force] the collection is deleted
    and recreated; every worker-scoped partial output is merged into the
    collection; one manifest entry is written per file present in the
    document store; the worker-scoped staging artifacts are removed; the
    summary gives the chunk and file counts. These are the phases of
    [IndexerWorkers.finalize_index]; the worker-scoped manifests are
    staging artifacts here, and the document count is for display only. *)
Definition finalize_index (force : bool) (doc_count : nat) : M string :=
  result ← IndexerWorkers.finalize_index force;
  v ← get_vol;
  set_vol (with_worker_manifests v ∅);;
  mret result.

Definition _finalize (force : bool) (doc_count : nat) : M string :=
  on_status "finalizing index...";;
  emit (EvFinalize force);;
  result ← finalize_index force doc_count;
  mret result.

Definition no_documents : string :=
  "No documents found in /data/rag/docs/. Share files via Slack first.".

Definition all_indexed : string :=
  "All documents already indexed. Share new files or run `reindex --force` to rebuild.".

Definition _empty_result : M string :=
  v ← get_vol;
  match docs v with
  | None => mret no_documents
  | Some dir =>
      let manifest := _load_manifest v in
      let has_indexed :=
        existsb (λ p : string * Stat, bool_decide (is_Some (manifest !! p.1)))
                (sorted_files dir) in
      if has_indexed then mret all_indexed else mret no_documents
  end.

(** [reindex(force, on_status, reload_fn)]. The status callback is the log;
    the reload hook belongs to the caller and acts on the caller's side. *)
Definition reindex (force : bool) (reload_fn : option (World → res unit * World))
  : M string :=
  files ← _scan force;
  match files with
  | [] => _empty_result
  | _ =>
      doc_count ← _embed files;
      result ← _finalize force doc_count;
      match reload_fn with
      | Some f => on_status "reloading search index...";; emit EvReload;; ext f
      | None => mret ()
      end;;
      mret result
  end.

End defs.
End IndexPipeline.

(** ** agents/slackbot/services/index_client.py *)

Module IndexClient.
Section defs.
Context `{Capabilities}.

Definition _list_docs : M (list string) :=
  v ← get_vol;
  match docs v with
  | None => mret []
  | Some dir => mret (map (λ p, docs_path p.1) (sorted_files dir))
  end.

Definition failure_message (failed total_chunks : nat) : string :=
  "Embedding failed for " +:+ pretty failed +:+ " worker(s). "
  +:+ fmt_comma total_chunks +:+ " chunks succeeded. "
  +:+ "Run `reindex` again to retry.".

(** The loop of [_fan_out] over the results: [(total_chunks, failed)]. *)
Definition collect_results (results : list (res (nat * nat))) : M (nat * nat) :=
  foldM (λ '(total_chunks, failed) result,
           match result with
           | Raise _ => mret (total_chunks, failed + 1)
           | Ok (wid, count) =>
               let total' := total_chunks + count in
               on_status ("worker-" +:+ pretty wid +:+ " done: " +:+ fmt_comma count
                          +:+ " chunks (total: " +:+ fmt_comma total' +:+ ")");;
               mret (total', failed)
           end)
        (0, 0) results.

Definition _fan_out (all_files : list string)
    (embed_method : list string → nat → M (nat * nat)) (n_workers : nat)
  : M (option string) :=
  chunk_size ← lift (ceil_div (length all_files) n_workers);
  batches ← lift (slices all_files chunk_size);
  let worker_ids := seq 0 (length batches) in
  results ← map_return_exceptions embed_method batches worker_ids;
  '(total_chunks, failed) ← collect_results results;
  match failed with
  | 0 => mret None
  | _ => mret (Some (failure_message failed total_chunks))
  end.

Definition no_documents : string :=
  "No documents found in /data/rag/docs/. Share files via Slack first.".

Definition _run (force : bool) (reload_fn : option (World → res unit * World))
  : M string :=
  on_status "scanning documents...";;
  all_files ← _list_docs;
  match all_files with
  | [] => mret no_documents
  | _ =>
      on_status ("embedding " +:+ pretty (length all_files)
                 +:+ " file(s) across GPU workers...");;
      error ← _fan_out all_files IndexerWorkers.embed IndexerWorkers.N_WORKERS;
      match error with
      | Some msg => mret msg
      | None =>
          on_status "writing to ChromaDB...";;
          emit (EvFinalize force);;
          result ← IndexerWorkers.finalize_index force;
          match reload_fn with
          | Some f => on_status "reloading search index...";; emit EvReload;; ext f
          | None => mret ()
          end;;
          mret result
      end
  end.

Definition reindex (force : bool) (reload_fn : option (World → res unit * World))
  : M string := _run force reload_fn.

End defs.
End IndexClient.

(** ** Notions used to state the properties *)

(** The paths a work item covers, and the entries of archive [z] it covers. *)
Definition files_of (b : WorkItem) : list string :=
  match b with Files paths => paths | _ => [] end.

Definition entries_of (z : string) (b : WorkItem) : list string :=
  match b with
  | ZipEntries zip_path entries => if decide (zip_path = z) then entries else []
  | _ => []
  end.

(** The events of a run that started in [s] and ended in [s']. *)
Definition new_events `{Capabilities} (s s' : State) : list Event :=
  drop (length (log s)) (log s').

(** The exceptions and the chunk counts among the results the map yielded. *)
Definition failed_units `{Capabilities} (evs : list Event) : nat :=
  length (List.filter (λ ev, match ev with EvResult (Raise _) => true | _ => false end) evs).

Definition chunks_succeeded `{Capabilities} (evs : list Event) : nat :=
  sum_list_with (λ ev, match ev with EvResult (Ok (_, count)) => count | _ => 0 end) evs.


Definition embed_called `{Capabilities} (evs : list Event) : bool :=
  existsb (λ ev, match ev with EvEmbed _ => true | _ => false end) evs.

(** The stat of the regular file [name] of the document store. *)
Definition file_stat {Vec} (v : Volume Vec) (name : string) : option Stat :=
  dir ← docs v;
  e ← dir !! name;
  match e with File st _ => Some st | SubDir _ => None end.

(** The names [_scan] selects, as a function of the volume. *)
Definition scan_list `{Capabilities} (force : bool) (v : Volume Vec) : list string :=
  match docs v with
  | None => []
  | Some dir =>
      map fst (List.filter (IndexPipeline.needs_index force (IndexPipeline._load_manifest v))
                           (sorted_files dir))
  end.


(** What a worker leaves alone: the document store, the authoritative
    manifest, and the log. *)
Definition frame `{Capabilities} (s0 s : State) : Prop :=
  docs (vol s) = docs (vol s0)
  ∧ manifest_json (vol s) = manifest_json (vol s0)
  ∧ log s = log s0.


(** The events of a map over [ids] that yielded [results]. *)
Definition dispatch_events `{Capabilities} (ids : list nat)
    (results : list (res (nat * nat))) : list Event :=
  concat (zip_with (λ wid r, [EvEmbed wid; EvResult r]) ids results).

Definition is_status `{Capabilities} (ev : Event) : bool :=
  match ev with EvStatus _ => true | _ => false end.



(** What a staging worker that raises leaves alone: everything but the
    staging directory, in which it has left no pickle of its own. *)
Definition nothing_staged `{Capabilities} (s0 s : State) : Prop :=
  docs (vol s) = docs (vol s0)
  ∧ manifest_json (vol s) = manifest_json (vol s0)
  ∧ worker_manifests (vol s) = worker_manifests (vol s0)
  ∧ collection (vol s) = collection (vol s0)
  ∧ IndexerWorkers.pkl_files (vol s) = IndexerWorkers.pkl_files (vol s0).

(** Properties of the state that do not depend on the world. *)
Definition world_blind `{Capabilities} (I : State → Prop) : Prop :=
  ∀ s w, I s →
    I {| vol := vol s; world := w; pending_buf := pending_buf s; log := log s |}.

(** The regular files among the entries of a directory, and the step that
    records one fingerprint in a manifest: the bodies of [sorted_files] and
    of the loop of [full_manifest]. *)
Definition regular_entry (kv : string * DirEntry) : option (string * Stat) :=
  match kv.2 with File st _ => Some (kv.1, st) | SubDir _ => None end.

Definition record_fingerprint (manifest : Manifest) (p : string * Stat) : Manifest :=
  <[p.1 := fingerprint p.2]> manifest.

(** [m] keeps the property [I] of the state, whatever its outcome. *)
Definition keeps `{Capabilities} {A} (I : State → Prop) (m : M A) : Prop :=
  ∀ s, I s → I (m s).2.

(** [m] returns, and keeps [I], from every state where [I] holds. *)
Definition returns `{Capabilities} {A} (I : State → Prop) (m : M A) : Prop :=
  ∀ s, I s → is_ok (m s).1 = true ∧ I (m s).2.

(** ** A concrete instance of the capabilities, and sample volumes *)

Module Demo.

(** The world is the number of calls the embedding provider still answers
    before it starts failing. The reader and the PDF extractor raise on
    the data ["corrupt"]; the splitters return one node per document. *)
Definition one_node (i : nat) (d : Document) : TextNode :=
  {| node_id := "node-" +:+ pretty i;
     node_content := doc_text d;
     node_metadata := doc_metadata d |}.

Definition provider (texts : list string) (w : nat) : res (list nat) * nat :=
  match w with
  | 0 => (Raise (ExternalError "HTTPStatusError"), 0)
  | S w' => (Ok (map String.length texts), w')
  end.

Definition caps : Capabilities := {|
  Vec := nat;
  World := nat;
  load_data := λ path entry w,
    match entry with
    | Some (File _ (Blob data)) =>
        if String.eqb data "corrupt" then (Raise (ExternalError "reader"), w)
        else (Ok [{| doc_text := data; doc_metadata := ∅ |}], w)
    | _ => (Raise ValueError, w)
    end;
  pdf_text := λ data,
    if String.eqb data "corrupt" then Raise (ExternalError "PdfReadError") else Ok data;
  decode_utf8 := λ data, data;
  token_splitter := λ docs w, (Ok (imap one_node docs), w);
  sentence_splitter := λ docs w, (Ok (imap one_node docs), w);
  tei_embed := provider;
  hf_embed := provider;
|}.



Definition stat (mtime size : Z) : Stat := {| st_mtime_ns := mtime; st_size := size |}.

Definition text_file (mtime : Z) (data : string) : DirEntry :=
  File (stat mtime (Z.of_nat (String.length data))) (Blob data).

Definition volume_of (dir : gmap string DirEntry) (m : option Manifest) : Volume nat :=
  {| docs := Some dir; manifest_json := m; worker_manifests := ∅;
     collection := ∅; pending := None |}.

Definition state_of (v : Volume nat) (provider_calls : nat) : State (H := caps) :=
  @Build_State caps v provider_calls [] [].


(** A store holding one archive without any entry. *)
Definition empty_zip_volume : Volume nat :=
  volume_of {[ "empty.zip" := File (stat 1700000000 22) (ZipArchive []) ]} None.



(** Two text files, the second one unreadable. *)
Definition two_files_volume : Volume nat :=
  volume_of (<["a.txt" := text_file 1 "alpha"]>
             {[ "b.txt" := text_file 2 "corrupt" ]}) None.

(** Two readable text files. *)
Definition good_files_volume : Volume nat :=
  volume_of (<["a.txt" := text_file 1 "alpha"]>
             {[ "b.txt" := text_file 2 "beta" ]}) None.

(** The same store after an indexing run: the manifest holds both
    fingerprints and nothing is staged. *)
Definition indexed_volume : Volume nat :=
  volume_of (<["a.txt" := text_file 1 "alpha"]>
             {[ "b.txt" := text_file 2 "beta" ]})
            (Some (<["a.txt" := "1:5"]> {[ "b.txt" := "2:4" ]})).

(** An archive whose second member is unreadable, the third blank and the
    fourth a broken PDF. *)
Definition archive_members : list (string * option string) :=
  [("one.txt", Some "first"); ("two.txt", None); ("three.txt", Some "   ");
   ("four.PDF", Some "corrupt"); ("dir/", Some ""); ("five.txt", Some "fifth")].

Definition archive_volume : Volume nat :=
  volume_of {[ "c.zip" := File (stat 3 900) (ZipArchive archive_members) ]} None.

End Demo.

(** * Properties *)

(** Simplification does not look inside these; their lemmas are used. *)
#[global] Arguments slices : simpl never.
#[global] Arguments Py.range : simpl never.
#[global] Arguments ceil_div : simpl never.
#[global] Arguments upsert_batched : simpl never.
#[global] Arguments zip_open : simpl never.
#[global] Arguments path_stat : simpl never.
#[global] Arguments fingerprint : simpl never.
#[global] Arguments docs_path : simpl never.
#[global] Arguments path_name : simpl never.
#[global] Arguments fmt_comma : simpl never.
#[global] Arguments sorted_files : simpl never.
#[global] Arguments IndexPipeline.build_batches : simpl never.
#[global] Arguments IndexerWorkers.full_manifest : simpl never.
#[global] Arguments IndexerWorkers.pkl_files : simpl never.
#[global] Arguments IndexerWorkers.summary : simpl never.
#[global] Arguments IndexClient.failure_message : simpl never.
#[global] Arguments pretty : simpl never.
#[global] Arguments EmbedWorker._chunk_and_embed : simpl never.
#[global] Arguments EmbedWorker._embed_files : simpl never.
#[global] Arguments EmbedWorker._embed_zip_entries : simpl never.
#[global] Arguments EmbedWorker._flush_to_chroma : simpl never.
#[global] Arguments EmbedWorker._write_manifest : simpl never.
#[global] Arguments EmbedWorker.embed : simpl never.
#[global] Arguments IndexerWorkers.embed : simpl never.
#[global] Arguments IndexerWorkers.finalize_index : simpl never.

(** ** Slicing a list by a step *)

Section slicing.
Context {A : Type}.
Implicit Types (l : list A) (step : nat).

Lemma slices_take l step k :
  concat (map (λ i, slice l i (i + step)) (map (λ j, j * step) (seq 0 k)))
  = take (k * step) l.
Proof.
  induction k as [|k IH].
  - reflexivity.
  - rewrite seq_S, !map_app, concat_app, IH. simpl.
    rewrite app_nil_r. unfold slice.
    replace (k * step + step - k * step) with step by lia.
    rewrite take_take_drop. f_equal. lia.
Qed.

Lemma ceil_covers n step : step ≠ 0 → n ≤ (n + step - 1) / step * step.
Proof.
  intros Hs.
  pose proof (Nat.div_mod (n + step - 1) step Hs) as Hd.
  pose proof (Nat.mod_upper_bound (n + step - 1) step Hs) as Hm.
  nia.
Qed.

Lemma slices_ok l step :
  step ≠ 0 → ∃ parts, slices l step = Ok parts.
Proof.
  intros Hs. unfold slices, range.
  destruct (step =? 0) eqn:E; [apply Nat.eqb_eq in E; lia|].
  eexists. reflexivity.
Qed.

Lemma slices_zero l : slices l 0 = Raise ValueError.
Proof. reflexivity. Qed.

Lemma slices_inv l step parts :
  slices l step = Ok parts →
  step ≠ 0 ∧ concat parts = l ∧ length parts = (length l + step - 1) / step.
Proof.
  unfold slices, range. destruct (step =? 0) eqn:E; [discriminate|].
  apply Nat.eqb_neq in E. cbn. intros [= <-]. split; [assumption|]. split.
  - rewrite slices_take. apply take_ge. apply ceil_covers. assumption.
  - rewrite !length_map, length_seq. reflexivity.
Qed.

Lemma slices_nonempty l step parts :
  slices l step = Ok parts → Forall (λ p, p ≠ []) parts.
Proof.
  unfold slices, range. destruct (step =? 0) eqn:E; [discriminate|].
  apply Nat.eqb_neq in E. cbn. intros [= <-].
  rewrite Forall_forall. intros p Hp.
  apply list_elem_of_In, in_map_iff in Hp as (i & <- & Hi).
  apply in_map_iff in Hi as (j & <- & Hj). apply in_seq in Hj.
  unfold slice. replace (j * step + step - j * step) with step by lia.
  intros Hnil. apply (f_equal length) in Hnil.
  rewrite length_take, length_drop in Hnil. simpl in Hnil.
  assert (j * step < length l); [|lia].
  assert (S j * step < length l + step); [|lia].
  pose proof (Nat.div_mod (length l + step - 1) step E) as Hd.
  pose proof (Nat.mod_upper_bound (length l + step - 1) step E) as Hm.
  nia.
Qed.

End slicing.

Lemma ceil_pos (len n : nat) : n ≠ 0 → len ≠ 0 → (len + n - 1) / n ≠ 0.
Proof.
  intros Hn Hl E. pose proof (ceil_covers len n Hn) as Hc. rewrite E in Hc. lia.
Qed.

(** [math.ceil(len / n)]-sized slices are at most [n]. *)
Lemma ceil_slices_le (len n : nat) :
  n ≠ 0 → (len + (len + n - 1) / n - 1) / ((len + n - 1) / n) ≤ n.
Proof.
  intros Hn.
  destruct (decide (len = 0)) as [->|Hlen].
  - replace (0 + n - 1) with (n - 1) by lia.
    rewrite (Nat.div_small (n - 1) n) by lia. simpl. lia.
  - set (c := (len + n - 1) / n).
    assert (Hc : len ≤ c * n) by (apply ceil_covers; assumption).
    assert (Hc0 : c ≠ 0) by (intros E; rewrite E in Hc; lia).
    apply Nat.lt_succ_r, Nat.Div0.div_lt_upper_bound. nia.
Qed.

(** ** The batch planner *)

Section planner.
Context `{Capabilities}.
Import IndexPipeline.

Implicit Types (v : Volume Vec) (n : nat) (files zips : list string).

(** The step of the loop over the archives. *)
Local Abbreviation plan_step n v :=
  (λ (acc : res (list WorkItem * nat)) (zip_path : string),
     '(batches, doc_count) ← acc;
     '(items, k) ← zip_batches n v zip_path;
     Ok (batches ++ items, doc_count + k)).

Lemma regular_batches_inv n regular items dc :
  regular_batches n regular = Ok (items, dc) →
  concat (map files_of items) = regular
  ∧ (∀ z, concat (map (entries_of z) items) = [])
  ∧ length items ≤ n ∧ dc = length regular.
Proof.
  unfold regular_batches. destruct regular as [|f regular].
  { intros [= <- <-]. repeat split; simpl; auto with lia. }
  set (l := f :: regular). unfold ceil_div.
  destruct (n =? 0) eqn:En; [discriminate|]. apply Nat.eqb_neq in En. cbn.
  destruct (slices l _) as [parts|e] eqn:Es; [|discriminate]. cbn.
  intros [= <- <-]. apply slices_inv in Es as (Hc & Hcat & Hlen).
  repeat split.
  - rewrite map_map. simpl. rewrite map_id. exact Hcat.
  - intros z. rewrite map_map. simpl. clear. induction parts; simpl; auto.
  - rewrite length_map, Hlen. apply ceil_slices_le. exact En.
Qed.

Lemma zip_batches_inv n v z items dc :
  zip_batches n v z = Ok (items, dc) →
  ∃ zf, zip_open v z = Ok zf
    ∧ file_entries zf ≠ []
    ∧ concat (map (entries_of z) items) = file_entries zf
    ∧ (∀ z', z' ≠ z → concat (map (entries_of z') items) = [])
    ∧ concat (map files_of items) = []
    ∧ Forall (λ b, ∃ es, b = ZipEntries z es) items
    ∧ length items ≤ n ∧ dc = length (file_entries zf).
Proof.
  unfold zip_batches. destruct (zip_open v z) as [zf|e] eqn:Ez; [|discriminate]. cbn.
  unfold ceil_div. destruct (n =? 0) eqn:En; [discriminate|]. apply Nat.eqb_neq in En. cbn.
  destruct (slices _ _) as [parts|e] eqn:Es; [|discriminate]. cbn.
  intros [= <- <-]. exists zf. split; [reflexivity|].
  apply slices_inv in Es as (Hc & Hcat & Hlen).
  repeat split.
  - intros Hnil. rewrite Hnil in Hc. simpl in Hc.
    rewrite (Nat.div_small (n - 1) n) in Hc by lia. congruence.
  - rewrite map_map. simpl. rewrite <- Hcat. f_equal.
    clear. induction parts; simpl; [reflexivity|].
    destruct (decide (z = z)); congruence.
  - intros z' Hne. rewrite map_map. simpl. clear -Hne.
    induction parts; simpl; [reflexivity|].
    destruct (decide (z = z')); [congruence|]. exact IHparts.
  - rewrite map_map. simpl. clear. induction parts; simpl; auto.
  - apply Forall_forall. intros b Hb.
    apply list_elem_of_In, in_map_iff in Hb as (es & <- & _). eauto.
  - rewrite length_map, Hlen. apply ceil_slices_le. exact En.
Qed.

(** An archive without a file entry makes the planner raise: the slice
    size is [math.ceil(0 / n_batches) = 0], and [range(0, 0, 0)] raises. *)
Lemma zip_batches_empty n v z zf :
  zip_open v z = Ok zf → file_entries zf = [] →
  zip_batches n v z = Raise (if n =? 0 then ZeroDivisionError else ValueError).
Proof.
  intros Hz He. unfold zip_batches. rewrite Hz. cbn. rewrite He. simpl.
  unfold ceil_div. destruct (n =? 0) eqn:En; [reflexivity|]. cbn.
  apply Nat.eqb_neq in En.
  rewrite (Nat.div_small (n - 1) n) by lia. reflexivity.
Qed.

Lemma zip_batches_ok n v z zf :
  n ≠ 0 → zip_open v z = Ok zf → file_entries zf ≠ [] →
  ∃ r, zip_batches n v z = Ok r.
Proof.
  intros Hn Hz He. unfold zip_batches. rewrite Hz. cbn.
  unfold ceil_div. destruct (n =? 0) eqn:En; [apply Nat.eqb_eq in En; lia|]. cbn.
  destruct (slices_ok (file_entries zf) ((length (file_entries zf) + n - 1) / n))
    as [parts Hp].
  - apply ceil_pos; [exact Hn|]. destruct (file_entries zf); simpl; congruence.
  - rewrite Hp. cbn. eauto.
Qed.

Lemma plan_loop_raise n v e zips :
  foldl (plan_step n v) (Raise e) zips = Raise e.
Proof. induction zips; simpl; auto. Qed.

Lemma plan_loop_inv n v zips b0 d0 b d :
  foldl (plan_step n v) (Ok (b0, d0)) zips = Ok (b, d) →
  ∃ per_zip : list (list WorkItem * nat),
    Forall2 (λ z r, zip_batches n v z = Ok r) zips per_zip
    ∧ b = b0 ++ concat (map fst per_zip)
    ∧ d = d0 + sum_list (map snd per_zip).
Proof.
  revert b0 d0. induction zips as [|z zips IH]; intros b0 d0; simpl.
  - intros [= <- <-]. exists []. simpl. rewrite app_nil_r.
    auto using Forall2_nil with lia.
  - destruct (zip_batches n v z) as [[items k]|e] eqn:Ez; cbn.
    + intros Hf. apply IH in Hf as (per_zip & HF & -> & ->).
      exists ((items, k) :: per_zip). simpl. rewrite <- app_assoc.
      split; [constructor; assumption|]. split; [reflexivity|lia].
    + rewrite plan_loop_raise. discriminate.
Qed.

Lemma plan_loop_raise_at n v zips z acc e :
  z ∈ zips → zip_batches n v z = Raise e →
  ∃ e', foldl (plan_step n v) acc zips = Raise e'.
Proof.
  intros Hz Hr. revert acc. induction zips as [|z' zips IH]; intros acc.
  - inversion Hz.
  - simpl. apply elem_of_cons in Hz as [<-|Hz].
    + rewrite Hr. destruct acc as [[b d]|e0]; cbn; rewrite plan_loop_raise; eauto.
    + apply IH. exact Hz.
Qed.

Lemma plan_loop_ok n v zips acc :
  Forall (λ z, ∃ r, zip_batches n v z = Ok r) zips →
  ∃ r, foldl (plan_step n v) (Ok acc) zips = Ok r.
Proof.
  intros HF. revert acc. induction HF as [|z zips [[items k] Hz] _ IH]; intros [b d]; simpl.
  - eauto.
  - rewrite Hz. cbn. apply IH.
Qed.

(** The entries of archive [z] over the items of all archives. *)
Lemma per_zip_entries n v zips per_zip z :
  Forall2 (λ z r, zip_batches n v z = Ok r) zips per_zip →
  NoDup zips →
  concat (map (entries_of z) (concat (map fst per_zip)))
  = if decide (z ∈ zips)
    then match zip_open v z with Ok zf => file_entries zf | Raise _ => [] end
    else [].
Proof.
  induction 1 as [|z' [items k] zips per_zip Hz _ IH]; intros Hnd.
  - simpl. destruct (decide (z ∈ [])) as [Hin|]; [inversion Hin|reflexivity].
  - apply NoDup_cons in Hnd as [Hnotin Hnd]. simpl.
    rewrite map_app, concat_app, IH by assumption.
    apply zip_batches_inv in Hz as (zf & Hopen & _ & Hsame & Hother & _).
    destruct (decide (z = z')) as [->|Hne].
    + rewrite Hsame, Hopen.
      destruct (decide (z' ∈ zips)); [contradiction|].
      destruct (decide (z' ∈ z' :: zips)) as [|Hn]; [apply app_nil_r|].
      exfalso. apply Hn. left.
    + rewrite (Hother z Hne). simpl.
      destruct (decide (z ∈ zips)) as [Hin|Hin];
        destruct (decide (z ∈ z' :: zips)) as [Hin'|Hin']; try reflexivity.
      * exfalso. apply Hin'. right. exact Hin.
      * apply elem_of_cons in Hin' as [?|?]; contradiction.
Qed.

Lemma per_zip_files n v zips per_zip :
  Forall2 (λ z r, zip_batches n v z = Ok r) zips per_zip →
  concat (map files_of (concat (map fst per_zip))) = [].
Proof.
  induction 1 as [|z [items k] zips per_zip Hz _ IH]; simpl; [reflexivity|].
  rewrite map_app, concat_app, IH.
  apply zip_batches_inv in Hz as (zf & _ & _ & _ & _ & Hf & _).
  rewrite Hf. reflexivity.
Qed.


(** When the planner returns, its items partition the input: the regular
    files across the [Files] items, and the entries of every archive
    across its [ZipEntries] items, in order and without repetition. *)
Lemma build_batches_partition n v files batches dc :
  build_batches n v files = Ok (batches, dc) →
  concat (map files_of batches) = List.filter (λ f, negb (is_zip f)) files
  ∧ ∀ z, NoDup files → z ∈ files → is_zip z = true →
      ∃ zf, zip_open v z = Ok zf
            ∧ concat (map (entries_of z) batches) = file_entries zf.
Proof.
  unfold build_batches.
  destruct (regular_batches n _) as [[b0 d0]|e] eqn:Er; cbn; [|discriminate].
  intros Hloop. apply plan_loop_inv in Hloop as (per_zip & HF & -> & ->).
  apply regular_batches_inv in Er as (Hreg & Hnoent & _ & _).
  split.
  - rewrite map_app, concat_app, Hreg, (per_zip_files _ _ _ _ HF). apply app_nil_r.
  - intros z Hnd Hin Hzip.
    assert (Hz : z ∈ List.filter is_zip files).
    { apply list_elem_of_In, filter_In. split; [apply list_elem_of_In|]; assumption. }
    rewrite map_app, concat_app, Hnoent. simpl.
    rewrite (per_zip_entries _ _ _ _ z HF) by (apply NoDup_ListNoDup, List.NoDup_filter, NoDup_ListNoDup; exact Hnd).
    destruct (decide (z ∈ List.filter is_zip files)); [|contradiction].
    apply list_elem_of_lookup in Hz as [i Hi].
    destruct (Forall2_lookup_l _ _ _ _ _ HF Hi) as ([items k] & _ & Hb).
    apply zip_batches_inv in Hb as (zf & Hopen & _). rewrite Hopen. eauto.
Qed.

(** The planner returns whenever the pool is not empty and every archive
    of the input opens and has a file entry. *)
Lemma build_batches_returns n v files :
  n ≠ 0 →
  (∀ z, z ∈ files → is_zip z = true →
        ∃ zf, zip_open v z = Ok zf ∧ file_entries zf ≠ []) →
  ∃ batches dc, build_batches n v files = Ok (batches, dc).
Proof.
  intros Hn Hz. unfold build_batches.
  assert (∃ r, regular_batches n (List.filter (λ f, negb (is_zip f)) files) = Ok r)
    as [r0 ->].
  { unfold regular_batches. destruct (List.filter _ files) as [|f l] eqn:El; [eauto|].
    unfold ceil_div. destruct (n =? 0) eqn:En; [apply Nat.eqb_eq in En; lia|]. cbn.
    edestruct (slices_ok (f :: l)) as [parts ->]; [|cbn; eauto].
    apply (ceil_pos (length (f :: l)) n); [exact Hn|discriminate]. }
  cbn. destruct (plan_loop_ok n v (List.filter is_zip files) r0) as [[b d] ->]; [|eauto].
  apply Forall_forall. intros z Hin.
  apply list_elem_of_In, filter_In in Hin as [Hin Hzip].
  destruct (Hz z) as (zf & Ho & Hne); [apply list_elem_of_In; exact Hin|exact Hzip|].
  eapply zip_batches_ok; eauto.
Qed.

End planner.

(** ** The claims about the planner *)

Section planner_claims.
Context `{Capabilities}.
Import IndexPipeline.

(** C1 (the code departs from the claim). The planner does not produce
    work items for every input: when the input holds an archive without
    any file entry, [build_batches] raises, for every pool size. The
    regular files are guarded by [if regular:], the archives are not. *)
Theorem planner_raises_on_empty_archive n (v : Volume Vec) files z zf :
  z ∈ files → is_zip z = true →
  zip_open v z = Ok zf → file_entries zf = [] →
  ∃ e, build_batches n v files = Raise e.
Proof.
  intros Hin Hzip Hopen Hempty. unfold build_batches.
  destruct (regular_batches n _) as [start|e]; cbn; [|eauto].
  eapply (plan_loop_raise_at n v _ z).
  - apply list_elem_of_In, filter_In. split; [apply list_elem_of_In|]; assumption.
  - exact (zip_batches_empty n v z zf Hopen Hempty).
Qed.


End planner_claims.

Lemma planner_raises_on_empty_archive_witness :
  ∃ e, IndexPipeline.build_batches (H := Demo.caps)
         (Config.N_WORKERS * Config.WORKERS_PER_GPU) Demo.empty_zip_volume
         [docs_path "empty.zip"] = Raise e.
Proof.
  apply (planner_raises_on_empty_archive (H := Demo.caps) _ _ _ (docs_path "empty.zip") []).
  - apply list_elem_of_here.
  - vm_compute. reflexivity.
  - vm_compute. reflexivity.
  - reflexivity.
Defined.

Example empty_archive_value_error :
  IndexPipeline.build_batches (H := Demo.caps) 32 Demo.empty_zip_volume
    [docs_path "empty.zip"] = Raise ValueError.
Proof. vm_compute. reflexivity. Qed.

Example reindex_aborts_on_empty_archive :
  (IndexPipeline.reindex (H := Demo.caps) false None
     (Demo.state_of Demo.empty_zip_volume 5)).1 = Raise ValueError.
Proof. vm_compute. reflexivity. Qed.



(** ** Reasoning about the phases *)

Section phases.
Context `{Capabilities}.

Lemma bind_run {A B} (m : M A) (f : A → M B) s :
  (m ≫= f) s = match m s with
               | (Ok a, s') => f a s'
               | (Raise e, s') => (Raise e, s')
               end.
Proof. reflexivity. Qed.

Lemma bind_ok {A B} (m : M A) (f : A → M B) s a s' :
  m s = (Ok a, s') → (m ≫= f) s = f a s'.
Proof. intros E. rewrite bind_run, E. reflexivity. Qed.

Lemma bind_raise {A B} (m : M A) (f : A → M B) s e s' :
  m s = (Raise e, s') → (m ≫= f) s = (Raise e, s').
Proof. intros E. rewrite bind_run, E. reflexivity. Qed.

Section keeping.
Context (I : State → Prop).

Lemma keeps_ret {A} (a : A) : keeps I (mret a).
Proof. intros s Hs. exact Hs. Qed.

Lemma keeps_raise {A} e : keeps I (raise (A := A) e).
Proof. intros s Hs. exact Hs. Qed.

Lemma keeps_lift {A} (r : res A) : keeps I (lift r).
Proof. intros s Hs. exact Hs. Qed.

Lemma keeps_get_vol : keeps I get_vol.
Proof. intros s Hs. exact Hs. Qed.

Lemma keeps_get_pending : keeps I get_pending.
Proof. intros s Hs. exact Hs. Qed.

Lemma keeps_bind {A B} (m : M A) (f : A → M B) :
  keeps I m → (∀ a, keeps I (f a)) → keeps I (m ≫= f).
Proof.
  intros Hm Hf s Hs. rewrite bind_run. specialize (Hm s Hs).
  destruct (m s) as [[a|e] s']; simpl in *; [apply Hf|]; assumption.
Qed.

Lemma keeps_foldM {A B} (f : B → A → M B) b l :
  (∀ b x, keeps I (f b x)) → keeps I (foldM f b l).
Proof.
  intros Hf. revert b. induction l as [|x l IH]; intros b; simpl.
  - apply keeps_ret.
  - apply keeps_bind; [apply Hf|]. intros b'. apply IH.
Qed.


Lemma returns_get_vol : returns I get_vol.
Proof. intros s Hs. split; [reflexivity|exact Hs]. Qed.





Lemma returns_keeps {A} (m : M A) : returns I m → keeps I m.
Proof. intros Hm s Hs. apply Hm. exact Hs. Qed.

End keeping.

(** The map yields one result per input and never raises itself. *)
Lemma map_return_exceptions_ok {In} (f : In → nat → M (nat * nat)) inputs ids s :
  ∃ results, (map_return_exceptions f inputs ids s).1 = Ok results.
Proof.
  revert ids s. induction inputs as [|work inputs IH]; intros ids s.
  - simpl. eauto.
  - destruct ids as [|wid ids]; [simpl; eauto|].
    cbn [map_return_exceptions].
    destruct ((emit (EvEmbed wid);; f work wid) s) as [r s1].
    rewrite bind_run. cbn [emit].
    rewrite bind_run.
    match goal with |- context [map_return_exceptions f inputs ids ?s2] =>
      destruct (IH ids s2) as [rs Hrs];
      destruct (map_return_exceptions f inputs ids s2) as [rs' s3] end.
    simpl in Hrs. subst rs'. simpl. eauto.
Qed.

End phases.

(** ** The document store and the fingerprints *)

Section store.






Lemma strip_prefix_app p r : strip_prefix p (p +:+ r) = Some r.
Proof.
  induction p as [|c p IH]; simpl; [reflexivity|].
  rewrite Ascii.eqb_refl. exact IH.
Qed.

Lemma docs_path_inj name name' : docs_path name = docs_path name' → name = name'.
Proof.
  unfold docs_path. intros E.
  assert (Hs : ∀ n, strip_prefix (DOCS_DIR +:+ "/") (DOCS_DIR +:+ "/" +:+ n) = Some n).
  { intros n. apply (strip_prefix_app (DOCS_DIR +:+ "/") n). }
  pose proof (Hs name) as H1. rewrite E, Hs in H1. congruence.
Qed.

Lemma lookup_docs_path {Vec} (v : Volume Vec) name :
  lookup_path v (docs_path name) = dir ← docs v; dir !! name.
Proof.
  unfold lookup_path, docs_path. destruct (docs v) as [dir|]; [|reflexivity]. cbn.
  change (DOCS_DIR +:+ "/" +:+ name) with ((DOCS_DIR +:+ "/") +:+ name).
  rewrite strip_prefix_app. reflexivity.
Qed.

Implicit Types dir : gmap string DirEntry.

Lemma sorted_files_perm dir : sorted_files dir ≡ₚ omap regular_entry (map_to_list dir).
Proof. unfold sorted_files. apply merge_sort_Permutation. Qed.

Lemma elem_of_sorted_files dir name st :
  (name, st) ∈ sorted_files dir ↔ ∃ data, dir !! name = Some (File st data).
Proof.
  rewrite sorted_files_perm, list_elem_of_omap. split.
  - intros ([k e] & Hin & Hreg). apply elem_of_map_to_list in Hin.
    unfold regular_entry in Hreg. simpl in Hreg. destruct e as [?|st' data]; [discriminate|].
    injection Hreg as -> ->. eauto.
  - intros [data Hd]. exists (name, File st data). split; [|reflexivity].
    apply elem_of_map_to_list. exact Hd.
Qed.

Lemma NoDup_sorted_files dir : NoDup ((sorted_files dir).*1).
Proof.
  rewrite sorted_files_perm.
  pose proof (NoDup_fst_map_to_list dir) as Hnd.
  induction (map_to_list dir) as [|[k e] l IH]; [constructor|].
  rewrite fmap_cons in Hnd. apply NoDup_cons in Hnd as [Hk Hnd].
  cbn [omap list_omap]. unfold regular_entry at 1. simpl.
  destruct e as [?|st data]; [apply IH; exact Hnd|].
  rewrite fmap_cons. apply NoDup_cons. split; [|apply IH; exact Hnd].
  simpl. intros Hin. apply Hk.
  apply list_elem_of_fmap in Hin as ([k' st'] & -> & Hin).
  apply list_elem_of_omap in Hin as ([k'' e''] & Hin & Hreg).
  unfold regular_entry in Hreg. simpl in Hreg. destruct e''; [discriminate|].
  injection Hreg as -> ->. apply list_elem_of_fmap. exists (k', File st' data0).
  split; [reflexivity|exact Hin].
Qed.

Lemma file_stat_sorted {Vec} (v : Volume Vec) dir name st :
  docs v = Some dir →
  file_stat v name = Some st ↔ (name, st) ∈ sorted_files dir.
Proof.
  intros Hd. unfold file_stat. rewrite Hd. cbn. rewrite elem_of_sorted_files.
  destruct (dir !! name) as [[?|st' data]|]; cbn; split;
    try (intros [??]; congruence); try congruence.
  intros [= ->]. eauto.
Qed.

Lemma record_all_other l (m : Manifest) k :
  k ∉ l.*1 → foldl record_fingerprint m l !! k = m !! k.
Proof.
  revert m. induction l as [|p l IH]; intros m Hk; [reflexivity|].
  rewrite fmap_cons in Hk. apply not_elem_of_cons in Hk as [Hne Hk]. simpl.
  rewrite IH by exact Hk. unfold record_fingerprint. apply lookup_insert_ne. congruence.
Qed.

Lemma record_all_lookup l (m : Manifest) k st :
  NoDup (l.*1) → (k, st) ∈ l → foldl record_fingerprint m l !! k = Some (fingerprint st).
Proof.
  revert m. induction l as [|p l IH]; intros m Hnd Hin; [inversion Hin|].
  rewrite fmap_cons in Hnd. apply NoDup_cons in Hnd as [Hp Hnd]. simpl.
  apply elem_of_cons in Hin as [<-|Hin].
  - rewrite record_all_other by exact Hp. unfold record_fingerprint. simpl. apply lookup_insert_eq.
  - apply IH; assumption.
Qed.

Lemma record_all_dom l (m : Manifest) k :
  is_Some (foldl record_fingerprint m l !! k) → k ∈ l.*1 ∨ is_Some (m !! k).
Proof.
  revert m. induction l as [|p l IH]; intros m; simpl; [auto|].
  intros Hs. apply IH in Hs as [Hin|Hs]; [left; apply elem_of_cons; right; exact Hin|].
  unfold record_fingerprint in Hs. destruct (decide (p.1 = k)) as [<-|Hne].
  - left. apply elem_of_cons. left. reflexivity.
  - rewrite lookup_insert_ne in Hs by exact Hne. auto.
Qed.

(** The manifest Finalize writes holds exactly the current fingerprint of
    every regular file of the document store. *)
Lemma full_manifest_lookup `{Capabilities} (v : Volume Vec) name :
  IndexerWorkers.full_manifest v !! name = fingerprint <$> file_stat v name.
Proof.
  unfold IndexerWorkers.full_manifest. destruct (docs v) as [dir|] eqn:Hd.
  - destruct (file_stat v name) as [st|] eqn:Hst; simpl.
    + apply (record_all_lookup _ _ _ st); [apply NoDup_sorted_files|].
      apply (file_stat_sorted v dir); assumption.
    + apply eq_None_not_Some. intros Hs.
      apply record_all_dom in Hs as [Hin|Hs]; [|rewrite lookup_empty in Hs; destruct Hs; discriminate].
      apply list_elem_of_fmap in Hin as ([k st] & -> & Hin). simpl in Hst.
      apply (file_stat_sorted v dir) in Hin; [congruence|assumption].
  - unfold file_stat. rewrite Hd. reflexivity.
Qed.

End store.

(** ** The scanner *)

Section scanner.
Context `{Capabilities}.
Import IndexPipeline.

Lemma scan_run force s :
  _scan force s
  = (Ok (map docs_path (scan_list force (vol s))),
     with_log s [EvStatus "scanning documents..."]).
Proof.
  unfold _scan, scan_list. rewrite bind_run. cbn. rewrite bind_run. cbn.
  destruct (docs (vol s)) as [dir|]; [|reflexivity].
  cbn. rewrite map_map. reflexivity.
Qed.

Lemma needs_index_spec force (m : Manifest) name st :
  needs_index force m (name, st) = true
  ↔ force = true ∨ m !! name ≠ Some (fingerprint st).
Proof.
  unfold needs_index, _fingerprint. simpl.
  rewrite orb_true_iff, negb_true_iff, bool_decide_eq_false. reflexivity.
Qed.

Lemma elem_of_scan_list force (v : Volume Vec) name :
  name ∈ scan_list force v
  ↔ ∃ st, file_stat v name = Some st
          ∧ (force = true ∨ _load_manifest v !! name ≠ Some (fingerprint st)).
Proof.
  unfold scan_list. destruct (docs v) as [dir|] eqn:Hd.
  - rewrite list_elem_of_In, in_map_iff. split.
    + intros ([n st] & <- & Hin). apply filter_In in Hin as [Hin Hneed].
      exists st. split.
      * apply (file_stat_sorted v dir); [exact Hd|]. apply list_elem_of_In. exact Hin.
      * apply needs_index_spec. exact Hneed.
    + intros (st & Hst & Hneed). exists (name, st). split; [reflexivity|].
      apply filter_In. split.
      * apply list_elem_of_In, (file_stat_sorted v dir); assumption.
      * apply needs_index_spec. exact Hneed.
  - split; [intros Hin; inversion Hin|].
    intros (st & Hst & _). unfold file_stat in Hst. rewrite Hd in Hst. discriminate.
Qed.


End scanner.


(** ** The embedding worker of the pipeline *)

Section embed_worker.
Context `{Capabilities}.
Import EmbedWorker.

Lemma frame_refl s : frame s s.
Proof. repeat split. Qed.

Lemma frame_trans s0 s1 s2 : frame s0 s1 → frame s1 s2 → frame s0 s2.
Proof. unfold frame. intros (?&?&?) (?&?&?). repeat split; congruence. Qed.

Lemma keeps_ext s0 {A} (f : World → res A * World) : keeps (frame s0) (ext f).
Proof. intros s Hs. unfold ext. destruct (f (world s)) as [r w]. exact Hs. Qed.

Lemma keeps_set_pending s0 p : keeps (frame s0) (set_pending p).
Proof. intros s Hs. exact Hs. Qed.


Lemma path_stat_docs (v v' : Volume Vec) p : docs v = docs v' → path_stat v p = path_stat v' p.
Proof. intros E. unfold path_stat, lookup_path. rewrite E. reflexivity. Qed.

Lemma upsert_batched_ok recs (c : gmap string (ChunkRecord Vec)) :
  ∃ c', upsert_batched recs c = Ok c'.
Proof.
  unfold upsert_batched.
  destruct (slices_ok recs Config.UPSERT_BATCH) as [parts ->]; [discriminate|].
  cbn. eauto.
Qed.

Lemma keeps_embed_texts s0 texts : keeps (frame s0) (_embed_texts texts).
Proof.
  unfold _embed_texts. apply keeps_bind; [apply keeps_lift|]. intros batches.
  apply keeps_foldM. intros acc batch.
  apply keeps_bind; [apply keeps_ext|]. intros r. apply keeps_ret.
Qed.

Lemma keeps_chunk_and_embed s0 docs : keeps (frame s0) (_chunk_and_embed docs).
Proof.
  unfold _chunk_and_embed. apply keeps_bind; [apply keeps_ext|]. intros [|n nodes].
  - apply keeps_ret.
  - apply keeps_bind; [apply keeps_embed_texts|]. intros embeddings.
    apply keeps_bind; [apply keeps_get_pending|]. intros pending.
    apply keeps_bind; [apply keeps_set_pending|]. intros _. apply keeps_ret.
Qed.

Lemma keeps_embed_files s0 paths wid : keeps (frame s0) (_embed_files paths wid).
Proof.
  unfold _embed_files. apply keeps_foldM. intros total file_path.
  apply keeps_bind.
  - unfold _load_file. apply keeps_bind; [apply keeps_get_vol|]. intros v.
    apply keeps_bind; [apply keeps_ext|]. intros docs. apply keeps_ret.
  - intros docs. apply keeps_bind; [apply keeps_chunk_and_embed|].
    intros count. apply keeps_ret.
Qed.

Lemma keeps_zip_entry_step s0 zf source acc name :
  keeps (frame s0) (zip_entry_step zf source acc name).
Proof.
  unfold zip_entry_step. destruct acc as [batch total].
  destruct (_read_zip_entry zf name) as [text|]; [|apply keeps_ret].
  destruct (is_blank text); [apply keeps_ret|].
  destruct (_ <=? _); [|apply keeps_ret].
  apply keeps_bind; [apply keeps_chunk_and_embed|]. intros count. apply keeps_ret.
Qed.

Lemma keeps_embed_zip_entries s0 zp entries wid :
  keeps (frame s0) (_embed_zip_entries zp entries wid).
Proof.
  unfold _embed_zip_entries. apply keeps_bind; [apply keeps_get_vol|]. intros v.
  apply keeps_bind; [apply keeps_lift|]. intros zf.
  apply keeps_bind; [apply keeps_foldM; intros; apply keeps_zip_entry_step|].
  intros [batch total]. simpl. destruct batch; [apply keeps_ret|].
  apply keeps_bind; [apply keeps_chunk_and_embed|]. intros count. apply keeps_ret.
Qed.

Lemma flush_run wid s :
  ∃ c, _flush_to_chroma wid s
       = (Ok (), {| vol := with_collection (vol s) c; world := world s;
                    pending_buf := []; log := log s |}).
Proof.
  unfold _flush_to_chroma. rewrite bind_run. cbn.
  destruct (pending_buf s) as [|r l] eqn:Ep.
  - exists (collection (vol s)). cbn. f_equal.
    destruct s as [[] ? ? ?]. simpl in *. subst. reflexivity.
  - rewrite bind_run. cbn. rewrite bind_run.
    destruct (upsert_batched_ok (r :: l) (collection (vol s))) as [c Hc].
    unfold lift. rewrite Hc. cbn. exists c. reflexivity.
Qed.

Lemma keeps_flush s0 wid : keeps (frame s0) (_flush_to_chroma wid).
Proof.
  intros s Hs. destruct (flush_run wid s) as [c ->]. exact Hs.
Qed.

(** The manifest a worker writes for its item, as a function of the volume. *)
Lemma write_manifest_loop (v : Volume Vec) paths (m0 : Manifest) s :
  vol s = v →
  ∃ r, foldM (λ (manifest : Manifest) p,
                v ← get_vol;
                st ← lift (path_stat v p);
                mret (<[path_name p := fingerprint st]> manifest)) m0 paths s
       = (r, s).
Proof.
  intros <-. revert m0. induction paths as [|p paths IH]; intros m0; simpl.
  - eauto.
  - rewrite bind_run. rewrite bind_run. cbn. rewrite bind_run. unfold lift.
    destruct (path_stat (vol s) p) as [st|e]; cbn; [apply IH|eauto].
Qed.

Lemma keeps_write_manifest s0 wid work : keeps (frame s0) (_write_manifest wid work).
Proof.
  intros s Hs. unfold _write_manifest. rewrite bind_run.
  destruct (write_manifest_loop (vol s) (manifest_paths work) ∅ s eq_refl) as [r ->].
  destruct r as [m|e]; [|exact Hs]. rewrite bind_run. cbn. exact Hs.
Qed.

(** A worker leaves the document store, the authoritative manifest and
    the log as they are, whether it returns or raises. *)
Lemma keeps_embed s0 work wid : keeps (frame s0) (embed work wid).
Proof.
  unfold embed. apply keeps_bind; [apply keeps_set_pending|]. intros _.
  apply keeps_bind.
  { destruct work; [apply keeps_embed_files|apply keeps_embed_zip_entries|apply keeps_raise]. }
  intros total. apply keeps_bind; [apply keeps_flush|]. intros _.
  apply keeps_bind; [apply keeps_write_manifest|]. intros _. apply keeps_ret.
Qed.

Lemma embed_frame work wid s : frame s (embed work wid s).2.
Proof. apply keeps_embed, frame_refl. Qed.

(** C10. For every [zip_entries] item, whatever slice of the archive it
    covers, the worker's own manifest holds one entry: the fingerprint of
    the whole archive file under the archive's name. This is what
    [_write_manifest] writes, and what every [embed] call that returns
    has written. *)
Theorem zip_slice_marks_archive zip_path entries wid s st :
  path_stat (vol s) zip_path = Ok st →
  (∃ s', _write_manifest wid (ZipEntries zip_path entries) s = (Ok (), s')
         ∧ worker_manifests (vol s') !! wid
           = Some {[ path_name zip_path := fingerprint st ]})
  ∧ (∀ r s', embed (ZipEntries zip_path entries) wid s = (Ok r, s') →
             worker_manifests (vol s') !! wid
             = Some {[ path_name zip_path := fingerprint st ]}).
Proof.
  assert (Hw : ∀ s1, path_stat (vol s1) zip_path = Ok st →
            ∃ s', _write_manifest wid (ZipEntries zip_path entries) s1 = (Ok (), s')
                  ∧ worker_manifests (vol s') !! wid
                    = Some {[ path_name zip_path := fingerprint st ]}).
  { intros s1 Hst. unfold _write_manifest. simpl.
    rewrite bind_run, bind_run, bind_run. cbn. rewrite bind_run. unfold lift.
    rewrite Hst. cbn. rewrite bind_run. cbn.
    eexists. split; [reflexivity|]. simpl. rewrite lookup_insert_eq.
    rewrite insert_empty. reflexivity. }
  intros Hst. split; [apply Hw; exact Hst|].
  intros r s'. unfold embed. rewrite bind_run. cbn. rewrite bind_run.
  match goal with |- context [_embed_zip_entries zip_path entries wid ?s1] =>
    pose proof (keeps_embed_zip_entries s zip_path entries wid s1 (frame_refl s)) as Hf1;
    destruct (_embed_zip_entries zip_path entries wid s1) as [[total|e] s2] end;
    [|discriminate].
  rewrite bind_run. pose proof (keeps_flush s wid s2 Hf1) as Hf2.
  destruct (_flush_to_chroma wid s2) as [[[]|e] s3]; [|discriminate].
  rewrite bind_run. simpl in Hf2.
  destruct (Hw s3) as (s4 & -> & Hm).
  { rewrite <- Hst. apply path_stat_docs. apply Hf2. }
  cbn. intros [= <- <-]. exact Hm.
Qed.

(** *** Archive entries that cannot be read, or are blank *)




Section provider_up.
Hypothesis splitter_ok : ∀ docs w, is_ok (token_splitter docs w).1 = true.
Hypothesis provider_ok : ∀ texts w, is_ok (tei_embed texts w).1 = true.








End provider_up.

End embed_worker.

Lemma zip_slice_marks_archive_witness :
  ∃ s', EmbedWorker.embed (H := Demo.caps)
          (ZipEntries (docs_path "c.zip") ["five.txt"]) 3
          (Demo.state_of Demo.archive_volume 5) = (Ok (3, 1), s')
        ∧ worker_manifests (vol s') !! 3 = Some {[ "c.zip" := "3:900" ]}.
Proof.
  eexists. split; [vm_compute; reflexivity|].
  refine (proj2 (zip_slice_marks_archive (H := Demo.caps) (docs_path "c.zip")
                   ["five.txt"] 3 (Demo.state_of Demo.archive_volume 5)
                   (Demo.stat 3 900) _) _ _ _).
  - vm_compute. reflexivity.
  - vm_compute. reflexivity.
Defined.



(** ** Events *)

Section events.
Context `{Capabilities}.

Lemma with_log_app s a b : with_log (with_log s a) b = with_log s (a ++ b).
Proof. unfold with_log. simpl. rewrite <- app_assoc. reflexivity. Qed.

Lemma new_events_with_log s evs : new_events s (with_log s evs) = evs.
Proof. unfold new_events. simpl. apply drop_app_length. Qed.

Lemma new_events_app s s' evs : log s' = log s ++ evs → new_events s s' = evs.
Proof. intros E. unfold new_events. rewrite E. apply drop_app_length. Qed.




Lemma embed_called_app a b : embed_called (a ++ b) = embed_called a || embed_called b.
Proof. apply existsb_app. Qed.



Lemma raised_in_dispatch ids results e :
  EvResult (Raise e) ∈ dispatch_events ids results → Raise e ∈ results.
Proof.
  revert results. induction ids as [|wid ids IH]; intros [|r results];
    unfold dispatch_events; simpl; try (intros Hin; inversion Hin; fail).
  intros Hin. apply elem_of_cons in Hin as [?|Hin]; [discriminate|].
  apply elem_of_cons in Hin as [[= <-]|Hin]; [left|].
  right. apply IH. exact Hin.
Qed.

Lemma status_not_result evs (r : res (nat * nat)) :
  forallb is_status evs = true → EvResult r ∉ evs.
Proof.
  intros Hs Hin. apply list_elem_of_In in Hin.
  rewrite forallb_forall in Hs. specialize (Hs _ Hin). discriminate.
Qed.

(** The map, for workers that leave the store and the log alone: one
    result per input, the store as it was, and the log extended by the
    events of the map. *)
Lemma map_run {In} (f : In → nat → M (nat * nat)) inputs ids s :
  (∀ s0 work wid, keeps (frame s0) (f work wid)) →
  length ids = length inputs →
  ∃ results s',
    map_return_exceptions f inputs ids s = (Ok results, s')
    ∧ length results = length inputs
    ∧ docs (vol s') = docs (vol s)
    ∧ manifest_json (vol s') = manifest_json (vol s)
    ∧ log s' = log s ++ dispatch_events ids results.
Proof.
  intros Hf. revert ids s. induction inputs as [|work inputs IH]; intros [|wid ids] s Hlen;
    try discriminate.
  - exists [], s. simpl. rewrite app_nil_r. repeat split.
  - injection Hlen as Hlen. cbn [map_return_exceptions].
    rewrite bind_run. cbn [emit].
    pose proof (Hf (with_log s [EvEmbed wid]) work wid _
                  (ltac:(repeat split) : frame (with_log s [EvEmbed wid])
                                               (with_log s [EvEmbed wid]))) as Hk.
    destruct (f work wid (with_log s [EvEmbed wid])) as [r s1]. simpl in Hk.
    rewrite bind_run. cbn [emit]. rewrite bind_run.
    destruct (IH ids (with_log s1 [EvResult r]) Hlen)
      as (results & s' & -> & Hl & Hd & Hm & Hlog).
    exists (r :: results), s'. destruct Hk as (Hk1 & Hk2 & Hk3).
    split; [reflexivity|]. simpl in *. repeat split.
    + rewrite Hl. reflexivity.
    + congruence.
    + congruence.
    + rewrite Hlog, Hk3. unfold dispatch_events. simpl.
      rewrite <- !app_assoc. reflexivity.
Qed.

End events.

(** ** Finalize *)

Section finalize.
Context `{Capabilities}.
Import IndexerWorkers.

(** The loop of Finalize over the staged pickles. *)
Local Abbreviation merge_step :=
  (λ (acc : res (gmap string (ChunkRecord Vec) * nat))
     (pkl : string * list (ChunkRecord Vec)),
     '(c, total) ← acc;
     c' ← upsert_batched pkl.2 c;
     Ok (c', total + length pkl.2)).

Lemma merge_loop_ok pkls (c : gmap string (ChunkRecord Vec)) total :
  ∃ c', foldl merge_step (Ok (c, total)) pkls
        = Ok (c', total + sum_list_with (λ pkl, length pkl.2) pkls).
Proof.
  revert c total. induction pkls as [|pkl pkls IH]; intros c total; cbn [foldl].
  - exists c. simpl. f_equal. f_equal. lia.
  - destruct (upsert_batched_ok pkl.2 c) as [c' Hc'].
    destruct (IH c' (total + length pkl.2)) as [c'' Hc'']. exists c''.
    etransitivity; [|etransitivity; [exact Hc''|]].
    + f_equal. cbn. rewrite Hc'. reflexivity.
    + simpl. f_equal. f_equal. lia.
Qed.

(** What Finalize returns and leaves behind. *)
Lemma finalize_run force s :
  ∃ c,
    finalize_index force s
    = (Ok (summary (sum_list_with (λ pkl, length pkl.2) (pkl_files (vol s)))
                   (size (full_manifest (vol s)))),
       {| vol := {| docs := docs (vol s);
                    manifest_json := Some (full_manifest (vol s));
                    worker_manifests := worker_manifests (vol s);
                    collection := c;
                    pending := None |};
          world := world s; pending_buf := pending_buf s; log := log s |})
    ∧ (pkl_files (vol s) = [] → c = if force then ∅ else collection (vol s)).
Proof.
  unfold finalize_index. rewrite bind_run. cbn. rewrite bind_run. unfold lift.
  destruct (merge_loop_ok (pkl_files (vol s))
              (if force then ∅ else collection (vol s)) 0) as [c Hc].
  rewrite Hc. cbn. exists c. split; [reflexivity|].
  intros Hnil. rewrite Hnil in Hc. simpl in Hc. congruence.
Qed.

Lemma full_manifest_docs (v v' : Volume Vec) :
  docs v = docs v' → full_manifest v = full_manifest v'.
Proof. intros E. unfold full_manifest. rewrite E. reflexivity. Qed.


(** Once the manifest holds every file's fingerprint, the scan selects
    nothing. *)
Lemma scan_after_full_manifest (v : Volume Vec) :
  manifest_json v = Some (full_manifest v) → scan_list false v = [].
Proof.
  intros Hm. destruct (scan_list false v) as [|name l] eqn:E; [reflexivity|].
  assert (Hin : name ∈ scan_list false v) by (rewrite E; left).
  apply elem_of_scan_list in Hin as (st & Hst & [?|Hne]); [discriminate|].
  exfalso. apply Hne. unfold IndexPipeline._load_manifest. rewrite Hm. simpl.
  rewrite full_manifest_lookup, Hst. reflexivity.
Qed.

End finalize.

(** ** The phases of the pipeline *)

Section pipeline.
Context `{Capabilities}.
Import IndexPipeline.

Local Abbreviation n_batches := (Config.N_WORKERS * Config.WORKERS_PER_GPU).

Local Abbreviation collect_step :=
  (λ (total : nat) (result : res (nat * nat)),
     match result with
     | Raise _ => mret total
     | Ok (wid, count) =>
         let total' := total + count in
         on_status ("worker-" +:+ pretty wid +:+ " done: " +:+ fmt_comma count
                    +:+ " chunks (total: " +:+ fmt_comma total' +:+ ")");;
         mret total'
     end).

Lemma collect_loop results total0 s :
  ∃ total statuses s',
    foldM collect_step total0 results s = (Ok total, s')
    ∧ vol s' = vol s ∧ world s' = world s
    ∧ log s' = log s ++ statuses
    ∧ forallb is_status statuses = true.
Proof.
  revert total0 s. induction results as [|r results IH]; intros total0 s.
  - exists total0, [], s. simpl. rewrite app_nil_r. repeat split.
  - cbn [foldM]. rewrite bind_run. destruct r as [[wid count]|e].
    + rewrite bind_run. cbn [on_status emit].
      match goal with |- context [with_log s [?ev]] =>
        destruct (IH (total0 + count) (with_log s [ev]))
          as (total & statuses & s' & Hrun & Hv & Hw & Hl & Hs);
        exists total, (ev :: statuses), s' end.
      split; [exact Hrun|]. simpl in *. repeat split; try assumption.
      rewrite Hl, <- app_assoc. reflexivity.
    + cbn. apply IH.
Qed.

Lemma build_phase files s :
  _build_batches files s = (build_batches n_batches (vol s) files, s).
Proof. reflexivity. Qed.

(** The embed phase: the planner's exception, or one result per item. *)
Lemma embed_phase files s :
  match build_batches n_batches (vol s) files with
  | Raise e => _embed files s = (Raise e, s)
  | Ok (batches, doc_count) =>
      ∃ msg results statuses s',
        _embed files s = (Ok doc_count, s')
        ∧ length results = length batches
        ∧ docs (vol s') = docs (vol s)
        ∧ forallb is_status statuses = true
        ∧ log s' = log s
                   ++ [EvStatus msg]
                   ++ dispatch_events (seq 0 (length batches)) results
                   ++ statuses
  end.
Proof.
  unfold _embed. rewrite bind_run, build_phase.
  destruct (build_batches n_batches (vol s) files) as [[batches dc]|e]; [|reflexivity].
  rewrite bind_run. cbn [on_status emit]. rewrite bind_run.
  match goal with |- context [with_log s [EvStatus ?m]] => set (msg := m) end.
  destruct (map_run EmbedWorker.embed batches (seq 0 (length batches))
              (with_log s [EvStatus msg]) keeps_embed (length_seq _ _))
    as (results & s1 & -> & Hlen & Hd & _ & Hlog).
  cbv beta iota. rewrite bind_run. unfold collect_results.
  destruct (collect_loop results 0 s1) as (total & statuses & s2 & Hc & Hv & _ & Hl & Hs).
  match goal with |- context [foldM ?f 0 results s1] =>
    change (foldM f 0 results s1) with (foldM collect_step 0 results s1) end.
  rewrite Hc.
  exists msg, results, statuses, s2. split; [reflexivity|].
  split; [exact Hlen|]. split; [rewrite Hv; exact Hd|]. split; [exact Hs|].
  rewrite Hl, Hlog. simpl. rewrite <- !app_assoc. reflexivity.
Qed.

Lemma finalize_phase force doc_count s :
  ∃ summary s',
    _finalize force doc_count s = (Ok summary, s')
    ∧ docs (vol s') = docs (vol s)
    ∧ manifest_json (vol s') = Some (IndexerWorkers.full_manifest (vol s))
    ∧ log s' = log s ++ [EvStatus "finalizing index..."; EvFinalize force].
Proof.
  unfold _finalize. rewrite bind_run. cbn [on_status emit]. rewrite bind_run.
  cbn [emit]. rewrite bind_run. unfold finalize_index at 1. rewrite bind_run.
  match goal with |- context [IndexerWorkers.finalize_index force ?s1] =>
    destruct (finalize_run force s1) as (c & -> & _) end.
  rewrite bind_run. cbn. eexists _, _. split; [reflexivity|]. simpl.
  repeat split. rewrite <- app_assoc. reflexivity.
Qed.

(** The call of the reload hook, if there is one. *)
Lemma reload_phase (reload_fn : option (World → res unit * World)) s :
  ∃ r tail s',
    (match reload_fn with
     | Some f => on_status "reloading search index...";; emit EvReload;; ext f
     | None => mret ()
     end) s = (r, s')
    ∧ vol s' = vol s ∧ log s' = log s ++ tail
    ∧ (tail = [] ∨ tail = [EvStatus "reloading search index..."; EvReload])
    ∧ (reload_fn = None → r = Ok ()).
Proof.
  destruct reload_fn as [f|].
  - rewrite bind_run. cbn [on_status emit]. rewrite bind_run. cbn [emit]. unfold ext.
    simpl. destruct (f (world s)) as [r w].
    eexists r, _, _. split; [reflexivity|]. simpl. split; [reflexivity|].
    split; [rewrite <- app_assoc; reflexivity|]. split; [right; reflexivity|discriminate].
  - exists (Ok ()), [], s. simpl. rewrite app_nil_r. repeat split. left. reflexivity.
Qed.

Lemma empty_result_run s :
  ∃ msg, _empty_result s = (Ok msg, s)
         ∧ (msg = all_indexed ∨ msg = no_documents)
         ∧ ((∃ name st, file_stat (vol s) name = Some st
                        ∧ is_Some (_load_manifest (vol s) !! name)) →
            msg = all_indexed).
Proof.
  unfold _empty_result. rewrite bind_run. cbn.
  destruct (docs (vol s)) as [dir|] eqn:Hd.
  - destruct (existsb _ (sorted_files dir)) eqn:Ex.
    + exists all_indexed. auto.
    + exists no_documents. split; [reflexivity|]. split; [auto|].
      intros (name & st & Hst & Hm). exfalso.
      apply (file_stat_sorted (vol s) dir) in Hst; [|exact Hd].
      apply list_elem_of_In in Hst.
      assert (Ht : existsb (λ p : string * Stat,
                     bool_decide (is_Some (_load_manifest (vol s) !! p.1)))
                     (sorted_files dir) = true).
      { apply existsb_exists. exists (name, st). split; [exact Hst|].
        apply bool_decide_eq_true. exact Hm. }
      congruence.
  - exists no_documents. split; [reflexivity|]. split; [auto|].
    intros (name & st & Hst & _). unfold file_stat in Hst. rewrite Hd in Hst. discriminate.
Qed.

(** The three ways a run goes: nothing to index; the planner raises; or
    the items are dispatched and Finalize runs. *)
Lemma reindex_cases force reload_fn s :
  ∃ r s1, reindex force reload_fn s = (r, s1) ∧
    ((scan_list force (vol s) = []
      ∧ vol s1 = vol s
      ∧ log s1 = log s ++ [EvStatus "scanning documents..."]
      ∧ ∃ msg, r = Ok msg ∧ (msg = all_indexed ∨ msg = no_documents)
               ∧ ((∃ name st, file_stat (vol s) name = Some st
                              ∧ is_Some (_load_manifest (vol s) !! name)) →
                  msg = all_indexed))
     ∨ (scan_list force (vol s) ≠ []
        ∧ vol s1 = vol s
        ∧ log s1 = log s ++ [EvStatus "scanning documents..."]
        ∧ ∃ e, r = Raise e
               ∧ build_batches n_batches (vol s)
                   (map docs_path (scan_list force (vol s))) = Raise e)
     ∨ (scan_list force (vol s) ≠ []
        ∧ docs (vol s1) = docs (vol s)
        ∧ manifest_json (vol s1) = Some (IndexerWorkers.full_manifest (vol s1))
        ∧ (reload_fn = None → is_ok r = true)
        ∧ ∃ msg batches doc_count results statuses tail,
            build_batches n_batches (vol s)
              (map docs_path (scan_list force (vol s))) = Ok (batches, doc_count)
            ∧ length results = length batches
            ∧ forallb is_status statuses = true
            ∧ (tail = [] ∨ tail = [EvStatus "reloading search index..."; EvReload])
            ∧ log s1 = log s
                       ++ [EvStatus "scanning documents..."; EvStatus msg]
                       ++ dispatch_events (seq 0 (length batches)) results
                       ++ statuses
                       ++ [EvStatus "finalizing index..."; EvFinalize force]
                       ++ tail)).
Proof.
  unfold reindex. rewrite bind_run, scan_run.
  destruct (scan_list force (vol s)) as [|name names] eqn:Escan.
  - simpl. destruct (empty_result_run (with_log s [EvStatus "scanning documents..."]))
      as (msg & -> & Hmsg & Hall).
    eexists _, _. split; [reflexivity|]. left. simpl. repeat split. eauto.
  - cbn [map]. rewrite bind_run.
    pose proof (embed_phase (docs_path name :: map docs_path names)
                  (with_log s [EvStatus "scanning documents..."])) as He.
    cbn [vol with_log] in He.
    destruct (build_batches n_batches (vol s) (docs_path name :: map docs_path names))
      as [[batches dc]|e] eqn:Eb.
    + destruct He as (msg & results & statuses & s2 & -> & Hlen & Hd & Hst & Hlog).
      rewrite bind_run.
      destruct (finalize_phase force dc s2) as (summary & s3 & -> & Hd3 & Hm3 & Hlog3).
      rewrite bind_run.
      destruct (reload_phase reload_fn s3) as (r & tail & s4 & -> & Hv4 & Hlog4 & Htail & Hr).
      assert (Hfinal : ∃ r', match r with
                             | Ok _ => (mret summary : M string) s4
                             | Raise e => (Raise e, s4)
                             end = (r', s4)
                             ∧ (reload_fn = None → is_ok r' = true)).
      { destruct r as [[]|e]; eexists; (split; [reflexivity|]); intros Hn;
          [reflexivity|specialize (Hr Hn); discriminate]. }
      destruct Hfinal as (r' & -> & Hr').
      exists r', s4. split; [reflexivity|]. right. right.
      split; [discriminate|]. split; [rewrite Hv4, Hd3; exact Hd|].
      split.
      { rewrite Hv4, Hm3. f_equal. apply full_manifest_docs. congruence. }
      split; [exact Hr'|].
      exists msg, batches, dc, results, statuses, tail.
      split; [reflexivity|]. split; [exact Hlen|]. split; [exact Hst|].
      split; [exact Htail|].
      rewrite Hlog4, Hlog3, Hlog. cbn [log with_log].
      repeat (rewrite <- ?app_assoc; simpl). reflexivity.
    + rewrite He. eexists _, _. split; [reflexivity|]. right. left.
      split; [discriminate|]. simpl. repeat split. eauto.
Qed.

End pipeline.

(** ** Running the pipeline again *)

Section rerun.
Context `{Capabilities}.
Import IndexPipeline.

Local Abbreviation n_batches := (Config.N_WORKERS * Config.WORKERS_PER_GPU).

(** A run on a volume where the scan selects nothing: the empty result,
    one status event, the volume as it was. *)
Lemma idle_run reload_fn s :
  scan_list false (vol s) = [] →
  ∃ msg s', reindex false reload_fn s = (Ok msg, s')
            ∧ (msg = all_indexed ∨ msg = no_documents)
            ∧ ((∃ name st, file_stat (vol s) name = Some st
                           ∧ is_Some (_load_manifest (vol s) !! name)) →
               msg = all_indexed)
            ∧ vol s' = vol s
            ∧ new_events s s' = [EvStatus "scanning documents..."].
Proof.
  intros Hscan.
  destruct (reindex_cases false reload_fn s)
    as (r & s' & Hrun & [(_ & Hv & Hlog & msg & -> & Hmsg & Hall)
                        |[(Hne & _)|(Hne & _)]]);
    try contradiction.
  exists msg, s'. repeat split; try assumption.
  apply new_events_app. exact Hlog.
Qed.

(** C6. Two runs of [reindex(force=false)] in a row, with nothing
    changed in between: the second run changes nothing on the volume
    (neither the collection nor the manifest), hands no item to a worker
    and does not call Finalize; its only event is the scan's status, and
    when the first run returned, the second returns the empty result. *)
Theorem second_run_is_idle reload_fn reload_fn' s :
  ∃ r1 s1 r2 s2,
    reindex false reload_fn s = (r1, s1)
    ∧ reindex false reload_fn' s1 = (r2, s2)
    ∧ vol s2 = vol s1
    ∧ new_events s1 s2 = [EvStatus "scanning documents..."]
    ∧ (is_ok r1 = true → r2 = Ok all_indexed ∨ r2 = Ok no_documents).
Proof.
  destruct (reindex_cases false reload_fn s)
    as (r1 & s1 & Hrun1 & [(Hscan & Hv & _)
                          |[(Hne & Hv & _ & e & -> & Hb)
                           |(_ & _ & Hm & _)]]).
  - destruct (idle_run reload_fn' s1) as (msg & s2 & Hrun2 & Hmsg & _ & Hv2 & Hev).
    { rewrite Hv. exact Hscan. }
    exists r1, s1, (Ok msg), s2. repeat split; try assumption.
    intros _. destruct Hmsg as [->| ->]; auto.
  - destruct (reindex_cases false reload_fn' s1)
      as (r2 & s2 & Hrun2 & [(Hscan & _)
                            |[(_ & Hv2 & Hlog2 & _)
                             |(_ & _ & _ & _ & ? & ? & ? & ? & ? & ? & Hb2 & _)]]).
    + rewrite Hv in Hscan. contradiction.
    + exists (Raise e), s1, r2, s2. repeat split; try assumption.
      * apply new_events_app. exact Hlog2.
      * discriminate.
    + rewrite Hv, Hb in Hb2. discriminate.
  - destruct (idle_run reload_fn' s1) as (msg & s2 & Hrun2 & Hmsg & _ & Hv2 & Hev).
    { apply scan_after_full_manifest. exact Hm. }
    exists r1, s1, (Ok msg), s2. repeat split; try assumption.
    intros _. destruct Hmsg as [->| ->]; auto.
Qed.


End rerun.

Example second_run_demo :
  let run1 := IndexPipeline.reindex (H := Demo.caps) false None
                (Demo.state_of Demo.good_files_volume 5) in
  let run2 := IndexPipeline.reindex (H := Demo.caps) false None run1.2 in
  run1.1 = Ok "Indexed 0 chunks from 2 file(s)."
  ∧ run2.1 = Ok IndexPipeline.all_indexed
  ∧ new_events run1.2 run2.2 = [EvStatus "scanning documents..."].
Proof. vm_compute. auto. Qed.



(** ** The staging worker and the client *)

Section staging_worker.
Context `{Capabilities}.
Import IndexerWorkers.

Lemma keeps_ext_blind I {A} (f : World → res A * World) :
  world_blind I → keeps I (ext f).
Proof.
  intros HI s Hs. unfold ext. destruct (f (world s)) as [r w]. apply HI. exact Hs.
Qed.

Section loop.
Context (I : State → Prop) (HI : world_blind I).

Lemma keeps_embed_batch docs records : keeps I (_embed_batch docs records).
Proof.
  unfold _embed_batch. apply keeps_bind; [apply keeps_ext_blind, HI|].
  intros [|n nodes]; [apply keeps_ret|].
  apply keeps_bind; [apply keeps_ext_blind, HI|]. intros embeddings. apply keeps_ret.
Qed.

Lemma keeps_zip_name_step zf source acc name :
  keeps I (zip_name_step zf source acc name).
Proof.
  unfold zip_name_step. destruct acc as [batch all_records].
  destruct (_read_zip_text zf name) as [text|]; [|apply keeps_ret].
  destruct (is_blank text); [apply keeps_ret|].
  destruct (_ <=? _); [|apply keeps_ret].
  apply keeps_bind; [apply keeps_embed_batch|]. intros recs. apply keeps_ret.
Qed.

Lemma keeps_embed_one_file all_records file_path :
  keeps I (embed_one_file all_records file_path).
Proof.
  unfold embed_one_file. apply keeps_bind; [apply keeps_get_vol|]. intros v.
  destruct (endswith file_path ".zip").
  - apply keeps_bind; [apply keeps_lift|]. intros zf.
    apply keeps_bind; [apply keeps_foldM; intros; apply keeps_zip_name_step|].
    intros [batch recs]. simpl. destruct batch; [apply keeps_ret|].
    apply keeps_embed_batch.
  - apply keeps_bind; [apply keeps_ext_blind, HI|]. intros docs.
    apply keeps_embed_batch.
Qed.

End loop.

(** A call of the staging worker: the volume changes only when the
    pickle is written, after every file has been embedded. *)
Lemma staging_embed_run file_paths wid s :
  ∃ r w,
    embed file_paths wid s
    = match r with
      | Ok recs =>
          (Ok (wid, length recs),
           {| vol := with_pending (vol s)
                       (Some (<[wid := recs]> (default ∅ (pending (vol s)))));
              world := w; pending_buf := pending_buf s; log := log s |})
      | Raise e =>
          (Raise e,
           {| vol := with_pending (vol s) (Some (default ∅ (pending (vol s))));
              world := w; pending_buf := pending_buf s; log := log s |})
      end.
Proof.
  unfold embed. rewrite bind_run. cbn [get_vol]. cbv beta iota. rewrite bind_run.
  cbn [set_vol]. cbv beta iota. rewrite bind_run.
  set (s0 := {| vol := with_pending (vol s) (Some (default ∅ (pending (vol s))));
                world := world s; pending_buf := pending_buf s; log := log s |}).
  pose proof (keeps_foldM
                (λ s', vol s' = vol s0 ∧ pending_buf s' = pending_buf s0 ∧ log s' = log s0)
                embed_one_file [] file_paths) as Hk.
  assert (Hblind : world_blind
            (λ s', vol s' = vol s0 ∧ pending_buf s' = pending_buf s0 ∧ log s' = log s0))
    by (intros s1 w H1; exact H1).
  specialize (Hk (λ b x, keeps_embed_one_file _ Hblind b x) s0
                 (conj eq_refl (conj eq_refl eq_refl))).
  destruct (foldM embed_one_file [] file_paths s0) as [[recs|e] s1];
    simpl in Hk; destruct Hk as (Hv & Hp & Hl); destruct s1 as [v1 w1 p1 l1];
    simpl in Hv, Hp, Hl; subst v1 p1 l1.
  - exists (Ok recs), w1. rewrite bind_run. cbn. reflexivity.
  - exists (Raise e), w1. reflexivity.
Qed.

Lemma pkl_files_created (v : Volume Vec) :
  pkl_files (with_pending v (Some (default ∅ (pending v)))) = pkl_files v.
Proof.
  unfold pkl_files. simpl. destruct (pending v) as [dir|]; [reflexivity|].
  simpl. rewrite map_to_list_empty. reflexivity.
Qed.


Lemma staging_embed_raise file_paths wid s e s' :
  embed file_paths wid s = (Raise e, s') → nothing_staged s s' ∧ log s' = log s.
Proof.
  destruct (staging_embed_run file_paths wid s) as (r & w & ->).
  destruct r as [recs|e']; [discriminate|]. intros [= <- <-].
  unfold nothing_staged. simpl. repeat split. apply pkl_files_created.
Qed.

Lemma nothing_staged_trans s0 s1 s2 :
  nothing_staged s0 s1 → nothing_staged s1 s2 → nothing_staged s0 s2.
Proof.
  unfold nothing_staged. intros (?&?&?&?&?) (?&?&?&?&?). repeat split; congruence.
Qed.

(** When every input of the map raises, nothing has been staged. *)
Lemma all_failed_nothing_staged batches ids s results s' :
  map_return_exceptions embed batches ids s = (Ok results, s') →
  Forall (λ r, is_raise r = true) results →
  nothing_staged s s'.
Proof.
  revert ids s results. induction batches as [|work batches IH]; intros [|wid ids] s results;
    try (intros [= <- <-] _; repeat split; fail).
  cbn [map_return_exceptions]. rewrite bind_run. cbn [emit].
  destruct (embed work wid (with_log s [EvEmbed wid])) as [r s1] eqn:Ee.
  rewrite bind_run. cbn [emit]. rewrite bind_run.
  destruct (map_return_exceptions embed batches ids (with_log s1 [EvResult r]))
    as [[rs|e] s2] eqn:Em; [|discriminate].
  cbn. intros [= <- <-] Hall. apply Forall_cons in Hall as [Hr Hall].
  destruct r as [?|e]; [discriminate|].
  apply staging_embed_raise in Ee as [Hn1 _].
  specialize (IH _ _ _ Em Hall).
  apply (nothing_staged_trans s (with_log s1 [EvResult (Raise e)]) s2); [|exact IH].
  exact Hn1.
Qed.

(** C9, as the code has it. Finalize's return value is made of the number
    of staged chunks and the number of files in the store. From a volume
    with nothing staged, after a map in which every input raised, it
    returns what it returns when no worker ran at all, ["Indexed 0 chunks
    from n file(s)."], and leaves the same volume. *)
Theorem finalize_cannot_tell force batches ids s results s' :
  pkl_files (vol s) = [] →
  map_return_exceptions embed batches ids s = (Ok results, s') →
  Forall (λ r, is_raise r = true) results →
  (finalize_index force s).1 = Ok (summary 0 (size (full_manifest (vol s))))
  ∧ (finalize_index force s').1 = (finalize_index force s).1
  ∧ vol (finalize_index force s').2 = vol (finalize_index force s).2.
Proof.
  intros Hnil Hmap Hall.
  destruct (all_failed_nothing_staged _ _ _ _ _ Hmap Hall) as (Hd & Hm & Hw & Hc & Hp).
  destruct (finalize_run force s) as (c & -> & Hcs).
  destruct (finalize_run force s') as (c' & -> & Hcs').
  rewrite Hp, Hnil in *. rewrite (full_manifest_docs (vol s') (vol s)) by exact Hd.
  simpl. rewrite (Hcs eq_refl), (Hcs' eq_refl), Hd, Hw, Hc. repeat split.
Qed.

End staging_worker.

Section client.
Context `{Capabilities}.
Import IndexClient.

Local Abbreviation client_step :=
  (λ '((total_chunks, failed) : nat * nat) (result : res (nat * nat)),
     match result with
     | Raise _ => mret (total_chunks, failed + 1)
     | Ok (wid, count) =>
         let total' := total_chunks + count in
         on_status ("worker-" +:+ pretty wid +:+ " done: " +:+ fmt_comma count
                    +:+ " chunks (total: " +:+ fmt_comma total' +:+ ")");;
         mret (total', failed)
     end).






End client.



Lemma finalize_cannot_tell_witness :
  ∃ results s',
    map_return_exceptions (H := Demo.caps) IndexerWorkers.embed
      [[docs_path "a.txt"]; [docs_path "b.txt"]] [0; 1]
      (Demo.state_of Demo.good_files_volume 0) = (Ok results, s')
    ∧ (IndexerWorkers.finalize_index (H := Demo.caps) false s').1
      = Ok "Indexed 0 chunks from 2 file(s).".
Proof.
  destruct (map_return_exceptions (H := Demo.caps) IndexerWorkers.embed
              [[docs_path "a.txt"]; [docs_path "b.txt"]] [0; 1]
              (Demo.state_of Demo.good_files_volume 0)) as [r s'] eqn:E.
  destruct r as [results|e]; [|vm_compute in E; discriminate].
  exists results, s'. split; [reflexivity|].
  destruct (finalize_cannot_tell (H := Demo.caps) false
              [[docs_path "a.txt"]; [docs_path "b.txt"]] [0; 1]
              (Demo.state_of Demo.good_files_volume 0) results s') as (H0 & H1 & _).
  - vm_compute. reflexivity.
  - exact E.
  - vm_compute in E. injection E as <- _. repeat constructor.
  - rewrite H1, H0. vm_compute. reflexivity.
Defined.

(** C9 as stated fails. The store is indexed and nothing is staged. Calling
    Finalize at once (nothing changed), and calling it after a fan-out in
    which both workers failed, give the same summary and the same volume. *)
Lemma finalize_same_for_idle_and_all_failed :
  let idle := Demo.state_of Demo.indexed_volume 0 in
  let all_failed := (IndexClient._fan_out (H := Demo.caps)
                       [docs_path "a.txt"; docs_path "b.txt"]
                       IndexerWorkers.embed IndexerWorkers.N_WORKERS idle).2 in
  failed_units (H := Demo.caps) (log all_failed) = 2
  ∧ chunks_succeeded (H := Demo.caps) (log all_failed) = 0
  ∧ (IndexerWorkers.finalize_index (H := Demo.caps) false idle).1
    = Ok "Indexed 0 chunks from 2 file(s)."
  ∧ ¬ ((IndexerWorkers.finalize_index (H := Demo.caps) false all_failed).1
       ≠ (IndexerWorkers.finalize_index (H := Demo.caps) false idle).1
       ∨ vol (IndexerWorkers.finalize_index (H := Demo.caps) false all_failed).2
         ≠ vol (IndexerWorkers.finalize_index (H := Demo.caps) false idle).2).
Proof.
  vm_compute. split; [reflexivity|]. split; [reflexivity|]. split; [reflexivity|].
  intros [Hne|Hne]; apply Hne; reflexivity.
Qed.

(** In the client, a failed item means that Finalize does not run and the
    manifest is not written: a scan of the volume it leaves selects every
    file, the one that was embedded as well. *)
Example client_failure_leaves_manifest :
  let s1 := (IndexClient._run (H := Demo.caps) false None
               (Demo.state_of Demo.two_files_volume 5)).2 in
  manifest_json (vol s1) = None
  ∧ (IndexPipeline._scan (H := Demo.caps) false s1).1
    = Ok [docs_path "a.txt"; docs_path "b.txt"].
Proof. vm_compute. split; reflexivity. Qed.
